(** * Viewport transform, coordinate mapping and gesture handling
    of the photo annotation editor

    A shallow embedding of the parts of [App.tsx] (viewport state: zoom,
    pan, wheel / pinch / button handlers) and of the [CanvasEditor]
    component (contain-fit coordinate mapping, freehand strokes, export)
    that the specification's properties talk about, followed by the
    properties themselves.  Beside them: the pan pad, the helper that
    picks the closest aspect ratio, the gallery of uploaded images with
    its selection, the data URLs of results, the images an edit request
    sends along, the result panel and the preview overlay of the canvas
    editor.

    Strings.  A string is a sequence of one-byte characters; characters
    beyond ASCII are not represented.

    Numbers.  A JavaScript [number] is an IEEE-754 double.  The model
    keeps the special values [NaN], [+Infinity], [-Infinity] and the rules
    by which they arise (division by zero, [0 * Infinity], ...) and
    propagate ([Math.min], [Math.max] and the comparisons), and takes the
    finite values as exact rationals.  Rounding, overflow and the sign of
    zero are not modelled: a zero divisor is read as [+0], which is what
    every divisor of the embedded code is when it vanishes (a size, a
    distance, a ratio of sizes). *)

From Stdlib Require Import QArith Qabs Qminmax Lqa Lia List Bool ZArith.
From Stdlib Require Import String Ascii Permutation.
Import ListNotations.

Open Scope Q_scope.

(* ================================================================= *)
(** ** JavaScript numbers *)

Module JS.

Inductive number : Type :=
| Fin (q : Q)
| PInf
| NInf
| NaN.

(** Sign of a number as a [comparison] with zero ([Eq] for zero and,
    by convention, for [NaN], which the callers exclude first). *)
Definition sign (a : number) : comparison :=
  match a with
  | Fin q => q ?= 0
  | PInf => Gt
  | NInf => Lt
  | NaN => Eq
  end.

Definition sign_mul (s t : comparison) : comparison :=
  match s, t with
  | Eq, _ | _, Eq => Eq
  | Gt, Gt | Lt, Lt => Gt
  | Gt, Lt | Lt, Gt => Lt
  end.

(** The infinity of a given sign; no sign (a zero factor) gives [NaN]. *)
Definition inf_of (s : comparison) : number :=
  match s with
  | Gt => PInf
  | Lt => NInf
  | Eq => NaN
  end.

Definition neg (a : number) : number :=
  match a with
  | Fin q => Fin (- q)
  | PInf => NInf
  | NInf => PInf
  | NaN => NaN
  end.

Definition add (a b : number) : number :=
  match a, b with
  | NaN, _ | _, NaN => NaN
  | Fin p, Fin q => Fin (p + q)
  | PInf, NInf | NInf, PInf => NaN
  | PInf, _ | _, PInf => PInf
  | NInf, _ | _, NInf => NInf
  end.

Definition sub (a b : number) : number := add a (neg b).

Definition mul (a b : number) : number :=
  match a, b with
  | NaN, _ | _, NaN => NaN
  | Fin p, Fin q => Fin (p * q)
  | _, _ => inf_of (sign_mul (sign a) (sign b))
  end.

(** [a / b].  A finite value over zero is an infinity of the sign of the
    numerator, [0 / 0] and [Infinity / Infinity] are [NaN], a finite value
    over an infinity is zero. *)
Definition div (a b : number) : number :=
  match a, b with
  | NaN, _ | _, NaN => NaN
  | Fin p, Fin q =>
      match q ?= 0 with
      | Eq => inf_of (p ?= 0)
      | _ => Fin (p / q)
      end
  | Fin _, _ => Fin 0
  | _, Fin q =>
      match q ?= 0 with
      | Lt => neg a
      | _ => a
      end
  | _, _ => NaN
  end.

(** [a < b]; every comparison with [NaN] is false. *)
Definition lt (a b : number) : bool :=
  match a, b with
  | NaN, _ | _, NaN => false
  | Fin p, Fin q => match p ?= q with Lt => true | _ => false end
  | NInf, Fin _ | NInf, PInf | Fin _, PInf => true
  | _, _ => false
  end.

Definition gt (a b : number) : bool := lt b a.

(** [Math.max] and [Math.min]: [NaN] when either argument is. *)
Definition Math_max (a b : number) : number :=
  match a, b with
  | NaN, _ | _, NaN => NaN
  | _, _ => if lt a b then b else a
  end.

Definition Math_min (a b : number) : number :=
  match a, b with
  | NaN, _ | _, NaN => NaN
  | _, _ => if lt b a then b else a
  end.

(** Square root of a non-negative rational, exact where the root is
    rational and truncated at sixteen decimal places of [1 / Qden q]
    elsewhere (the double that [Math.hypot] returns is an approximation
    too). *)
Definition Qsqrt (q : Q) : Q :=
  Qmake (Z.sqrt (Qnum q * Zpos (Qden q) * 100000000000000000000000000000000))
        (Qden q * 10000000000000000).

(** [Math.hypot(a, b)]: [Infinity] when either argument is infinite, else
    [NaN] when either is [NaN]. *)
Definition Math_hypot (a b : number) : number :=
  match a, b with
  | PInf, _ | NInf, _ | _, PInf | _, NInf => PInf
  | NaN, _ | _, NaN => NaN
  | Fin p, Fin q => Fin (Qsqrt (p * p + q * q))
  end.

(** Numbers up to the representation of the rational. *)
Definition num_eq (a b : number) : Prop :=
  match a, b with
  | Fin p, Fin q => p == q
  | PInf, PInf | NInf, NInf | NaN, NaN => True
  | _, _ => False
  end.

Definition finite (a : number) : Prop :=
  match a with
  | Fin _ => True
  | _ => False
  end.

(** [lo <= a <= hi] for a finite [a]; false of [NaN] and the infinities. *)
Definition within (lo hi : Q) (a : number) : Prop :=
  match a with
  | Fin q => lo <= q <= hi
  | _ => False
  end.

End JS.

Import JS.

Declare Scope js_scope.
Delimit Scope js_scope with js.
Bind Scope js_scope with number.
Infix "+" := add : js_scope.
Infix "-" := sub : js_scope.
Infix "*" := mul : js_scope.
Infix "/" := div : js_scope.
Notation "- a" := (neg a) : js_scope.
Infix "<?" := lt (at level 70) : js_scope.
Infix ">?" := gt (at level 70) : js_scope.
Infix "=j=" := num_eq (at level 70).

Arguments Fin q%_Q.

(* ================================================================= *)
(** ** DOM data read by the handlers *)

Module Point.
Record t : Type := mk { x : number; y : number }.
End Point.

(** The result of [getBoundingClientRect()]. *)
Module DOMRect.
Record t : Type := mk { left : number; top : number; width : number; height : number }.
End DOMRect.

Module Touch.
Record t : Type := mk { clientX : number; clientY : number }.
End Touch.

Module MouseEvent.
Record t : Type := mk { button : nat; clientX : number; clientY : number }.
End MouseEvent.

Module TouchEvent.
Record t : Type := mk { touches : list Touch.t }.
End TouchEvent.

Module WheelEvent.
Record t : Type := mk { clientX : number; clientY : number; deltaY : number }.
End WheelEvent.

(** [React.MouseEvent | React.TouchEvent], told apart in the source by
    ['touches' in event]. *)
Inductive PointerInput : Type :=
| OfMouse (e : MouseEvent.t)
| OfTouch (e : TouchEvent.t).

(** An [HTMLImageElement] once loaded. *)
Module Image.
Record t : Type := mk { naturalWidth : number; naturalHeight : number }.
End Image.

(* ================================================================= *)
(** ** components/CanvasEditor.tsx

    The main canvas, the coordinate mapper and the stroke handlers.  The
    preview overlay ([drawPreview], [clearPreview]) paints on a second
    canvas that nothing else reads; it is modelled apart, in [Preview],
    and is not part of the state here: [handleMouseMove] is
    [draw] after the preview, [handleTouchMove] is [draw],
    [handleMouseLeave] is [stopDrawing] before the preview is cleared. *)

Module CanvasEditor.

(** What the 2D context has been asked to paint on the main canvas, in
    order.  A stroke is always drawn with round caps and joins. *)
Inductive DrawOp : Type :=
| ClearRect (x y w h : number)
| DrawImage (img : Image.t) (dx dy : number)
| Stroke (from to : Point.t) (strokeStyle : string) (lineWidth : number).

(** An [HTMLCanvasElement]: its [width] and [height] attributes and its
    bitmap, kept as the list of operations painted on it (empty: blank). *)
Record Canvas : Type := mkCanvas {
  width : number;
  height : number;
  bitmap : list DrawOp
}.

(** A canvas element as the browser creates it: 300 x 150, blank. *)
Definition newCanvas : Canvas :=
  {| width := Fin 300; height := Fin 150; bitmap := [] |}.

Record Props : Type := mkProps {
  brushSize : number;
  brushColor : string
}.

(** The component's refs and state.  [mainCanvasRef] is [None] while the
    component is not mounted; [image] is [None] until the photo given in
    [imageSrc] has loaded. *)
Record State : Type := mkState {
  mainCanvasRef : option Canvas;
  isDrawing : bool;
  image : option Image.t;
  lastPoint : option Point.t
}.

(** Refs and state right after the first render: the canvas element
    exists, no image has loaded yet. *)
Definition mounted : State :=
  {| mainCanvasRef := Some newCanvas;
     isDrawing := false;
     image := None;
     lastPoint := None |}.

(** [img.onload] in the effect on [imageSrc]. *)
Definition onload (img : Image.t) (st : State) : State :=
  {| mainCanvasRef :=
       match mainCanvasRef st with
       | Some _ =>
           let w := Image.naturalWidth img in
           let h := Image.naturalHeight img in
           Some {| width := w; height := h;
                   bitmap := [ClearRect (Fin 0) (Fin 0) w h;
                              DrawImage img (Fin 0) (Fin 0)] |}
       | None => None
       end;
     isDrawing := isDrawing st;
     image := Some img;
     lastPoint := lastPoint st |}.

Definition resetCanvas (st : State) : State :=
  match mainCanvasRef st, image st with
  | Some canvas, Some image =>
      {| mainCanvasRef :=
           Some {| width := width canvas; height := height canvas;
                   bitmap := bitmap canvas ++
                     [ClearRect (Fin 0) (Fin 0) (width canvas) (height canvas);
                      DrawImage image (Fin 0) (Fin 0)] |};
         isDrawing := isDrawing st;
         image := Some image;
         lastPoint := lastPoint st |}
  | _, _ => st
  end.

(** The string that [toDataURL] of the imperative handle returns: either
    the empty string or what [canvas.toDataURL(type, quality)] gives, the
    browser's encoding of the canvas bitmap, kept symbolic. *)
Inductive DataURL : Type :=
| EmptyString
| Encoded (canvas : Canvas) (type : option string) (quality : option number).

Definition toDataURL (st : State) (type : option string)
    (quality : option number) : DataURL :=
  match mainCanvasRef st with
  | Some canvas => Encoded canvas type quality
  | None => EmptyString
  end.

(** The rectangle in which [object-contain] renders the image inside the
    canvas box: the [if (imageAspectRatio > containerAspectRatio)] block
    of [getCoordinates]. *)
Record Rendered : Type := mkRendered {
  renderedWidth : number;
  renderedHeight : number;
  offsetX : number;
  offsetY : number
}.

Definition containFit (naturalWidth naturalHeight containerWidth
    containerHeight : number) : Rendered :=
  let imageAspectRatio := (naturalWidth / naturalHeight)%js in
  let containerAspectRatio := (containerWidth / containerHeight)%js in
  if (imageAspectRatio >? containerAspectRatio)%js then
    let renderedWidth := containerWidth in
    let renderedHeight := (containerWidth / imageAspectRatio)%js in
    {| renderedWidth := renderedWidth;
       renderedHeight := renderedHeight;
       offsetX := Fin 0;
       offsetY := ((containerHeight - renderedHeight) / Fin 2)%js |}
  else
    let renderedHeight := containerHeight in
    let renderedWidth := (containerHeight * imageAspectRatio)%js in
    {| renderedWidth := renderedWidth;
       renderedHeight := renderedHeight;
       offsetX := ((containerWidth - renderedWidth) / Fin 2)%js;
       offsetY := Fin 0 |}.

(** [clientX], [clientY] of the event: of its first touch for a touch
    event, none when the touch list is empty. *)
Definition clientPoint (event : PointerInput) : option (number * number) :=
  match event with
  | OfTouch e =>
      match TouchEvent.touches e with
      | [] => None
      | t0 :: _ => Some (Touch.clientX t0, Touch.clientY t0)
      end
  | OfMouse e => Some (MouseEvent.clientX e, MouseEvent.clientY e)
  end.

(** The test of the [if (clamp && (...)) return null] of [getCoordinates]:
    the cursor is outside the rendered image area. *)
Definition outside (r : Rendered) (relativeX relativeY : number) : bool :=
  (relativeX <? offsetX r)%js
  || (relativeX >? offsetX r + renderedWidth r)%js
  || (relativeY <? offsetY r)%js
  || (relativeY >? offsetY r + renderedHeight r)%js.

(** [getCoordinates(event, clamp)].  [rect] is what
    [canvas.getBoundingClientRect()] returns when the event is handled. *)
Definition getCoordinates (st : State) (rect : DOMRect.t)
    (event : PointerInput) (clamp : bool) : option Point.t :=
  match mainCanvasRef st, image st with
  | Some _, Some image =>
      match clientPoint event with
      | None => None
      | Some (clientX, clientY) =>
          let naturalWidth := Image.naturalWidth image in
          let naturalHeight := Image.naturalHeight image in
          let containerWidth := DOMRect.width rect in
          let containerHeight := DOMRect.height rect in
          let r := containFit naturalWidth naturalHeight
                     containerWidth containerHeight in
          let relativeX := (clientX - DOMRect.left rect)%js in
          let relativeY := (clientY - DOMRect.top rect)%js in
          if clamp && outside r relativeX relativeY then None
          else
            let imageRelativeX := (relativeX - offsetX r)%js in
            let imageRelativeY := (relativeY - offsetY r)%js in
            let scale := (naturalWidth / renderedWidth r)%js in
            Some {| Point.x := (imageRelativeX * scale)%js;
                    Point.y := (imageRelativeY * scale)%js |}
      end
  | _, _ => None
  end.

Definition startDrawing (st : State) (rect : DOMRect.t)
    (event : PointerInput) : State :=
  match getCoordinates st rect event true with
  | None => st
  | Some coords =>
      {| mainCanvasRef := mainCanvasRef st;
         isDrawing := true;
         image := image st;
         lastPoint := Some coords |}
  end.

(** [ctx.beginPath(); ctx.moveTo(last); ctx.lineTo(coords); ...;
    ctx.stroke()] on the main canvas, when it exists. *)
Definition strokeOn (props : Props) (last coords : Point.t)
    (canvas : option Canvas) : option Canvas :=
  match canvas with
  | Some c =>
      Some {| width := width c; height := height c;
              bitmap := bitmap c ++
                [Stroke last coords (brushColor props) (brushSize props)] |}
  | None => None
  end.

Definition draw (props : Props) (st : State) (rect : DOMRect.t)
    (event : PointerInput) : State :=
  if negb (isDrawing st) then st
  else
    match getCoordinates st rect event true, lastPoint st with
    | Some coords, Some last =>
        {| mainCanvasRef := strokeOn props last coords (mainCanvasRef st);
           isDrawing := isDrawing st;
           image := image st;
           lastPoint := Some coords |}
    | _, _ => st
    end.

Definition stopDrawing (st : State) : State :=
  {| mainCanvasRef := mainCanvasRef st;
     isDrawing := false;
     image := image st;
     lastPoint := None |}.

(** The strokes committed to the main canvas so far. *)
Definition isStroke (op : DrawOp) : bool :=
  match op with
  | Stroke _ _ _ _ => true
  | _ => false
  end.

Definition strokes (st : State) : list DrawOp :=
  match mainCanvasRef st with
  | Some c => filter isStroke (bitmap c)
  | None => []
  end.

End CanvasEditor.

(* ================================================================= *)
(** ** App.tsx: viewport state and its handlers *)

Module PanStart.
Record t : Type := mk { startX : number; startY : number; startPan : Point.t }.
End PanStart.

Module PinchStart.
Record t : Type := mk { dist : number; mid : Point.t; zoom : number; pan : Point.t }.
End PinchStart.

Module App.

(** [zoom], [pan], [isPanning] are React state, [panStartRef] and
    [pinchStartRef] are refs. *)
Record State : Type := mkState {
  zoom : number;
  pan : Point.t;
  isPanning : bool;
  panStartRef : PanStart.t;
  pinchStartRef : option PinchStart.t
}.

Definition origin : Point.t := {| Point.x := Fin 0; Point.y := Fin 0 |}.

Definition init : State :=
  {| zoom := Fin 1;
     pan := origin;
     isPanning := false;
     panStartRef := {| PanStart.startX := Fin 0; PanStart.startY := Fin 0;
                       PanStart.startPan := origin |};
     pinchStartRef := None |}.

Definition setZoom (z : number) (s : State) : State :=
  {| zoom := z; pan := pan s; isPanning := isPanning s;
     panStartRef := panStartRef s; pinchStartRef := pinchStartRef s |}.

Definition setPan (p : Point.t) (s : State) : State :=
  {| zoom := zoom s; pan := p; isPanning := isPanning s;
     panStartRef := panStartRef s; pinchStartRef := pinchStartRef s |}.

Definition setIsPanning (b : bool) (s : State) : State :=
  {| zoom := zoom s; pan := pan s; isPanning := b;
     panStartRef := panStartRef s; pinchStartRef := pinchStartRef s |}.

Definition setPanStartRef (r : PanStart.t) (s : State) : State :=
  {| zoom := zoom s; pan := pan s; isPanning := isPanning s;
     panStartRef := r; pinchStartRef := pinchStartRef s |}.

Definition setPinchStartRef (r : option PinchStart.t) (s : State) : State :=
  {| zoom := zoom s; pan := pan s; isPanning := isPanning s;
     panStartRef := panStartRef s; pinchStartRef := r |}.

(** The clamp written [Math.max(1, Math.min(3, v))] in both zoom paths. *)
Definition clampZoom (v : number) : number :=
  Math_max (Fin 1) (Math_min (Fin 3) v).

Definition handlePanByControl (dx dy : number) (s : State) : State :=
  let p := pan s in
  setPan {| Point.x := (Point.x p + dx)%js; Point.y := (Point.y p + dy)%js |} s.

(** In every handler [container] is the bounding rectangle of
    [imageContainerRef.current], [None] when the ref is null. *)
Definition handleWheel (container : option DOMRect.t) (e : WheelEvent.t)
    (s : State) : State :=
  match container with
  | None => s
  | Some rect =>
      let mouseX := (WheelEvent.clientX e - DOMRect.left rect)%js in
      let mouseY := (WheelEvent.clientY e - DOMRect.top rect)%js in
      let delta := ((- WheelEvent.deltaY e) * Fin 0.005)%js in
      let prevZoom := zoom s in
      let newZoom := clampZoom (prevZoom + delta * prevZoom)%js in
      let scaleFactor := (newZoom / prevZoom)%js in
      let cx := (DOMRect.width rect / Fin 2)%js in
      let cy := (DOMRect.height rect / Fin 2)%js in
      let prevPan := pan s in
      setZoom newZoom
        (setPan
           {| Point.x := ((mouseX - cx) * (Fin 1 - scaleFactor)
                          + Point.x prevPan * scaleFactor)%js;
              Point.y := ((mouseY - cy) * (Fin 1 - scaleFactor)
                          + Point.y prevPan * scaleFactor)%js |} s)
  end.

Definition handlePanStart (container : option DOMRect.t)
    (clientX clientY : number) (s : State) : State :=
  match container with
  | None => s
  | Some _ =>
      setIsPanning true
        (setPanStartRef
           {| PanStart.startX := clientX; PanStart.startY := clientY;
              PanStart.startPan := pan s |} s)
  end.

Definition handlePanMove (clientX clientY : number) (s : State) : State :=
  if negb (isPanning s) then s
  else
    let r := panStartRef s in
    setPan
      {| Point.x := (Point.x (PanStart.startPan r)
                     + (clientX - PanStart.startX r))%js;
         Point.y := (Point.y (PanStart.startPan r)
                     + (clientY - PanStart.startY r))%js |} s.

Definition handlePanEnd (s : State) : State := setIsPanning false s.

Definition resetView (s : State) : State := setPan origin (setZoom (Fin 1) s).

Definition onMouseDown (container : option DOMRect.t) (e : MouseEvent.t)
    (s : State) : State :=
  if negb (Nat.eqb (MouseEvent.button e) 0) then s
  else handlePanStart container (MouseEvent.clientX e) (MouseEvent.clientY e) s.

Definition onMouseMove (e : MouseEvent.t) (s : State) : State :=
  handlePanMove (MouseEvent.clientX e) (MouseEvent.clientY e) s.

(** The distance and the midpoint of two touches, written out in both
    [onTouchStart] and [onTouchMove]. *)
Definition distance (t1 t2 : Touch.t) : number :=
  Math_hypot (Touch.clientX t1 - Touch.clientX t2)%js
             (Touch.clientY t1 - Touch.clientY t2)%js.

Definition midpoint (t1 t2 : Touch.t) : Point.t :=
  {| Point.x := ((Touch.clientX t1 + Touch.clientX t2) / Fin 2)%js;
     Point.y := ((Touch.clientY t1 + Touch.clientY t2) / Fin 2)%js |}.

Definition onTouchStart (container : option DOMRect.t) (e : TouchEvent.t)
    (s : State) : State :=
  match TouchEvent.touches e with
  | [t1; t2] =>
      setPinchStartRef
        (Some {| PinchStart.dist := distance t1 t2;
                 PinchStart.mid := midpoint t1 t2;
                 PinchStart.zoom := zoom s;
                 PinchStart.pan := pan s |})
        (setIsPanning false s)
  | [t1] =>
      handlePanStart container (Touch.clientX t1) (Touch.clientY t1)
        (setPinchStartRef None s)
  | _ => s
  end.

(** The two-touch branch of [onTouchMove]. *)
Definition pinchMove (container : option DOMRect.t) (t1 t2 : Touch.t)
    (start : PinchStart.t) (s : State) : State :=
  let newDist := distance t1 t2 in
  let scale := (newDist / PinchStart.dist start)%js in
  let newZoom := clampZoom (PinchStart.zoom start * scale)%js in
  match container with
  | None => s
  | Some rect =>
      let startMidOnScreen :=
        {| Point.x := (Point.x (PinchStart.mid start) - DOMRect.left rect)%js;
           Point.y := (Point.y (PinchStart.mid start) - DOMRect.top rect)%js |} in
      let worldPoint :=
        {| Point.x := ((Point.x startMidOnScreen
                        - Point.x (PinchStart.pan start))
                       / PinchStart.zoom start)%js;
           Point.y := ((Point.y startMidOnScreen
                        - Point.y (PinchStart.pan start))
                       / PinchStart.zoom start)%js |} in
      let newMid := midpoint t1 t2 in
      let newMidOnScreen :=
        {| Point.x := (Point.x newMid - DOMRect.left rect)%js;
           Point.y := (Point.y newMid - DOMRect.top rect)%js |} in
      let newPan :=
        {| Point.x := (Point.x newMidOnScreen - Point.x worldPoint * newZoom)%js;
           Point.y := (Point.y newMidOnScreen - Point.y worldPoint * newZoom)%js |} in
      setPan newPan (setZoom newZoom s)
  end.

Definition onTouchMove (container : option DOMRect.t) (e : TouchEvent.t)
    (s : State) : State :=
  match TouchEvent.touches e, pinchStartRef s with
  | [t1; t2], Some start => pinchMove container t1 t2 start s
  | [t1], _ =>
      if isPanning s
      then handlePanMove (Touch.clientX t1) (Touch.clientY t1) s
      else s
  | _, _ => s
  end.

Definition onTouchEnd (container : option DOMRect.t) (e : TouchEvent.t)
    (s : State) : State :=
  let s1 := handlePanEnd s in
  let s2 := if (List.length (TouchEvent.touches e) <? 2)%nat
            then setPinchStartRef None s1 else s1 in
  match TouchEvent.touches e with
  | [t1] => handlePanStart container (Touch.clientX t1) (Touch.clientY t1) s2
  | _ => s2
  end.

(** The [onClick] of the zoom-out and zoom-in buttons. *)
Definition zoomOutClick (s : State) : State :=
  setZoom (Math_max (Fin 1) (zoom s - Fin 0.2)%js) s.

Definition zoomInClick (s : State) : State :=
  setZoom (Math_min (Fin 3) (zoom s + Fin 0.2)%js) s.

(** What the user can do to the viewport. *)
Inductive Event : Type :=
| Wheel (e : WheelEvent.t)
| MouseDown (e : MouseEvent.t)
| MouseMove (e : MouseEvent.t)
| MouseUp
| MouseLeave
| TouchStart (e : TouchEvent.t)
| TouchMove (e : TouchEvent.t)
| TouchEnd (e : TouchEvent.t)
| ZoomInClick
| ZoomOutClick
| ResetViewClick
| PanControl (dx dy : number).

Definition handle (container : option DOMRect.t) (ev : Event) (s : State)
    : State :=
  match ev with
  | Wheel e => handleWheel container e s
  | MouseDown e => onMouseDown container e s
  | MouseMove e => onMouseMove e s
  | MouseUp => setIsPanning false s
  | MouseLeave => setIsPanning false s
  | TouchStart e => onTouchStart container e s
  | TouchMove e => onTouchMove container e s
  | TouchEnd e => onTouchEnd container e s
  | ZoomInClick => zoomInClick s
  | ZoomOutClick => zoomOutClick s
  | ResetViewClick => resetView s
  | PanControl dx dy => handlePanByControl dx dy s
  end.

(** Events are handled one at a time, each on the state the previous one
    left. *)
Fixpoint run (container : option DOMRect.t) (evs : list Event) (s : State)
    : State :=
  match evs with
  | [] => s
  | ev :: rest => run container rest (handle container ev s)
  end.

(** The states met along a run, in order, the starting state included. *)
Fixpoint trace (container : option DOMRect.t) (evs : list Event) (s : State)
    : list State :=
  match evs with
  | [] => [s]
  | ev :: rest => s :: trace container rest (handle container ev s)
  end.

End App.

(* ================================================================= *)
(** ** The layer transform of the canvas wrapper

    The wrapper of the canvas editor is rendered with
    [style={{ transform: `scale(${zoom}) translate(${pan.x}px, ${pan.y}px)` }}]
    inside the flex container that centres it.  The transform list is
    what the code produces; [apply] is how a browser reads such a list:
    the functions are composed left to right as matrices, so the function
    written last acts on the point first, around the transform origin
    (by default the centre of the element). *)

Module Layer.

Inductive TransformFunction : Type :=
| scale (s : number)
| translate (tx ty : number).

Definition transform (s : App.State) : list TransformFunction :=
  [scale (App.zoom s);
   translate (Point.x (App.pan s)) (Point.y (App.pan s))].

Definition applyFunction (f : TransformFunction) (p : Point.t) : Point.t :=
  match f with
  | scale s =>
      {| Point.x := (s * Point.x p)%js; Point.y := (s * Point.y p)%js |}
  | translate tx ty =>
      {| Point.x := (Point.x p + tx)%js; Point.y := (Point.y p + ty)%js |}
  end.

Fixpoint apply (fs : list TransformFunction) (p : Point.t) : Point.t :=
  match fs with
  | [] => p
  | f :: rest => applyFunction f (apply rest p)
  end.

(** Where, relative to the container's top-left corner, a point [p] of
    the wrapper (given relative to the wrapper's centre) is shown under
    the transform list [fs], the wrapper being centred in the container
    [rect]. *)
Definition shown (rect : DOMRect.t) (fs : list TransformFunction)
    (p : Point.t) : Point.t :=
  let q := apply fs p in
  {| Point.x := (DOMRect.width rect / Fin 2 + Point.x q)%js;
     Point.y := (DOMRect.height rect / Fin 2 + Point.y q)%js |}.

Definition shownAt (rect : DOMRect.t) (s : App.State) (p : Point.t)
    : Point.t :=
  shown rect (transform s) p.

(** The bounding client rectangle of a box of the wrapper ([box] is
    given relative to the wrapper's centre) under the state's transform,
    for a zoom that is not negative. *)
Definition boundingRect (rect : DOMRect.t) (s : App.State) (box : DOMRect.t)
    : DOMRect.t :=
  let topLeft :=
    shownAt rect s {| Point.x := DOMRect.left box; Point.y := DOMRect.top box |} in
  let bottomRight :=
    shownAt rect s
      {| Point.x := (DOMRect.left box + DOMRect.width box)%js;
         Point.y := (DOMRect.top box + DOMRect.height box)%js |} in
  {| DOMRect.left := (DOMRect.left rect + Point.x topLeft)%js;
     DOMRect.top := (DOMRect.top rect + Point.y topLeft)%js;
     DOMRect.width := (Point.x bottomRight - Point.x topLeft)%js;
     DOMRect.height := (Point.y bottomRight - Point.y topLeft)%js |}.

End Layer.

(* ================================================================= *)
(** ** The editor as a whole

    The root [div] of the canvas editor sits inside the container [div]
    of [App.tsx]; neither component stops propagation, so a mouse or
    touch event on the canvas runs the canvas editor's handler and then
    bubbles to the container's.  Wheel events and the toolbar buttons
    have a handler in [App.tsx] only.  A mouse leave is taken as leaving
    the canvas and the container at once. *)

Module Editor.

Record State : Type := mkState {
  app : App.State;
  canvas : CanvasEditor.State
}.

(** What a handler reads from the page when it runs: the bounding
    rectangles of the container (if mounted) and of the main canvas. *)
Record Env : Type := mkEnv {
  container : option DOMRect.t;
  canvasRect : DOMRect.t
}.

Definition onCanvas (props : CanvasEditor.Props) (env : Env)
    (ev : App.Event) (c : CanvasEditor.State) : CanvasEditor.State :=
  match ev with
  | App.MouseDown e => CanvasEditor.startDrawing c (canvasRect env) (OfMouse e)
  | App.MouseMove e => CanvasEditor.draw props c (canvasRect env) (OfMouse e)
  | App.MouseUp => CanvasEditor.stopDrawing c
  | App.MouseLeave => CanvasEditor.stopDrawing c
  | App.TouchStart e => CanvasEditor.startDrawing c (canvasRect env) (OfTouch e)
  | App.TouchMove e => CanvasEditor.draw props c (canvasRect env) (OfTouch e)
  | App.TouchEnd _ => CanvasEditor.stopDrawing c
  | _ => c
  end.

Definition dispatch (props : CanvasEditor.Props) (env : Env)
    (ev : App.Event) (s : State) : State :=
  {| app := App.handle (container env) ev (app s);
     canvas := onCanvas props env ev (canvas s) |}.

(** What happens to the editor: an input event on the canvas, the photo
    finishing to load, or the toolbar's clear button, which calls the
    [reset] of the canvas editor's handle. *)
Inductive Action : Type :=
| Input (env : Env) (ev : App.Event)
| Load (img : Image.t)
| Clear.

Definition step (props : CanvasEditor.Props) (a : Action) (s : State)
    : State :=
  match a with
  | Input env ev => dispatch props env ev s
  | Load img => {| app := app s; canvas := CanvasEditor.onload img (canvas s) |}
  | Clear => {| app := app s; canvas := CanvasEditor.resetCanvas (canvas s) |}
  end.

Fixpoint run (props : CanvasEditor.Props) (acts : list Action) (s : State)
    : State :=
  match acts with
  | [] => s
  | a :: rest => run props rest (step props a s)
  end.

Definition isLoad (a : Action) : bool :=
  match a with
  | Load _ => true
  | _ => false
  end.

(** The editor when the canvas has just been mounted. *)
Definition init : State :=
  {| app := App.init; canvas := CanvasEditor.mounted |}.

(** The three gesture flags the code keeps. *)
Definition drawing (s : State) : bool := CanvasEditor.isDrawing (canvas s).

Definition panning (s : State) : bool := App.isPanning (app s).

Definition pinching (s : State) : bool :=
  match App.pinchStartRef (app s) with
  | Some _ => true
  | None => false
  end.

Definition idle (s : State) : bool :=
  negb (drawing s) && negb (panning s) && negb (pinching s).

(** Exactly one of Panning, Pinching, Drawing, Idle. *)
Definition exclusive (s : State) : bool :=
  match drawing s, panning s, pinching s with
  | true, false, false
  | false, true, false
  | false, false, true
  | false, false, false => true
  | _, _, _ => false
  end.

End Editor.

(* ================================================================= *)
(** ** Vocabulary of the properties *)

Module Spec.

(** Two points with the same coordinates up to the representation of
    the rationals. *)
Definition point_eq (p q : Point.t) : Prop :=
  Point.x p =j= Point.x q /\ Point.y p =j= Point.y q.

Definition finiteTouch (t : Touch.t) : Prop :=
  finite (Touch.clientX t) /\ finite (Touch.clientY t).

(** Two touches at different places of the screen. *)
Definition apart (t1 t2 : Touch.t) : Prop :=
  ~ (Touch.clientX t1 =j= Touch.clientX t2
     /\ Touch.clientY t1 =j= Touch.clientY t2).

(** Events as a browser delivers them from real fingers and wheels: the
    wheel delta and the touch coordinates are finite, and the two touches
    that start a pinch are at different places. *)
Definition wellFormed (ev : App.Event) : Prop :=
  match ev with
  | App.Wheel e => finite (WheelEvent.deltaY e)
  | App.TouchStart e =>
      match TouchEvent.touches e with
      | [t1; t2] => finiteTouch t1 /\ finiteTouch t2 /\ apart t1 t2
      | _ => True
      end
  | App.TouchMove e =>
      match TouchEvent.touches e with
      | [t1; t2] => finiteTouch t1 /\ finiteTouch t2
      | _ => True
      end
  | _ => True
  end.

(** What the zoom paths rely on: the zoom is in range, and so is the zoom
    a pinch started from, whose start distance is positive. *)
Definition zoomInv (s : App.State) : Prop :=
  within 1 3 (App.zoom s)
  /\ forall a, App.pinchStartRef s = Some a ->
       within 1 3 (PinchStart.zoom a)
       /\ exists d, PinchStart.dist a = Fin d /\ 0 < d.

(** Input that comes from touches only. *)
Definition isTouch (ev : App.Event) : bool :=
  match ev with
  | App.TouchStart _ | App.TouchMove _ | App.TouchEnd _ => true
  | _ => false
  end.

Definition touchOnly (a : Editor.Action) : bool :=
  match a with
  | Editor.Input _ ev => isTouch ev
  | _ => true
  end.

End Spec.

(* ================================================================= *)
(** ** Concrete data used in the examples *)

Module Sample.

Definition rect (l t w h : Q) : DOMRect.t :=
  {| DOMRect.left := Fin l; DOMRect.top := Fin t;
     DOMRect.width := Fin w; DOMRect.height := Fin h |}.

Definition touch (x y : Q) : Touch.t :=
  {| Touch.clientX := Fin x; Touch.clientY := Fin y |}.

Definition touches (ts : list Touch.t) : TouchEvent.t :=
  {| TouchEvent.touches := ts |}.

Definition mouse (x y : Q) : MouseEvent.t :=
  {| MouseEvent.button := 0; MouseEvent.clientX := Fin x;
     MouseEvent.clientY := Fin y |}.

Definition wheel (x y dy : Q) : WheelEvent.t :=
  {| WheelEvent.clientX := Fin x; WheelEvent.clientY := Fin y;
     WheelEvent.deltaY := Fin dy |}.

Definition point (x y : Q) : Point.t :=
  {| Point.x := Fin x; Point.y := Fin y |}.

(** A 1000 x 500 photo, and the canvas editor once it has loaded. *)
Definition photo : Image.t :=
  {| Image.naturalWidth := Fin 1000; Image.naturalHeight := Fin 500 |}.

Definition loaded : CanvasEditor.State :=
  CanvasEditor.onload photo CanvasEditor.mounted.

Definition brush : CanvasEditor.Props :=
  {| CanvasEditor.brushSize := Fin 20; CanvasEditor.brushColor := "#ff0000" |}.

(** An 800 x 600 container at the top-left corner of the page, and a
    canvas laid out in an 800 x 800 box. *)
Definition container : DOMRect.t := rect 0 0 800 600.

Definition box : DOMRect.t := rect 0 0 800 800.

Definition env : Editor.Env :=
  {| Editor.container := Some container; Editor.canvasRect := box |}.

End Sample.

(* ================================================================= *)
(** ** More of [App.tsx]: the pan pad and the aspect ratio helper *)

(** Two more operations on numbers: [a === b] ([NaN] equals nothing) and
    [Math.abs]. *)
Module NumOps.

Definition strictEq (a b : number) : bool :=
  match a, b with
  | Fin p, Fin q => Qeq_bool p q
  | PInf, PInf | NInf, NInf => true
  | _, _ => false
  end.

Definition Math_abs (a : number) : number :=
  match a with
  | Fin q => Fin (Qabs q)
  | PInf | NInf => PInf
  | NaN => NaN
  end.

End NumOps.

(** The [PanControl] component: four arrow buttons set a direction, and
    a loop run on every animation frame reports the direction times the
    speed to [onPan] while it is not zero. *)
Module PanControl.

Record State : Type := mk { panDirectionRef : Point.t }.

(** The ref as [useRef({ x: 0, y: 0 })] creates it. *)
Definition mount : State := {| panDirectionRef := App.origin |}.

(** One run of [panLoop]; [onPan] is the callback of the props. *)
Definition panLoop (onPan : number -> number -> App.State -> App.State)
    (panSpeed : number) (st : State) (a : App.State) : App.State :=
  let d := panDirectionRef st in
  if negb (NumOps.strictEq (Point.x d) (Fin 0))
     || negb (NumOps.strictEq (Point.y d) (Fin 0))
  then onPan (Point.x d * panSpeed)%js (Point.y d * panSpeed)%js a
  else a.

Definition handleInteractionStart (x y : number) (st : State) : State :=
  {| panDirectionRef := {| Point.x := x; Point.y := y |} |}.

Definition handleInteractionEnd (st : State) : State :=
  {| panDirectionRef := App.origin |}.

End PanControl.

(** The pad as [App.tsx] uses it: [<PanControl onPan={handlePanByControl} />]
    with the default [panSpeed = 5].  Its buttons stop the propagation of
    their mouse and touch events, so the container never sees them. *)
Module Pad.

Definition panSpeed : number := Fin 5.

Record State : Type := mkState {
  app : App.State;
  pad : PanControl.State
}.

Inductive Event : Type :=
| Press (x y : number)
| Release
| Frame.

Definition step (ev : Event) (s : State) : State :=
  match ev with
  | Press x y =>
      {| app := app s; pad := PanControl.handleInteractionStart x y (pad s) |}
  | Release =>
      {| app := app s; pad := PanControl.handleInteractionEnd (pad s) |}
  | Frame =>
      {| app := PanControl.panLoop App.handlePanByControl panSpeed
                  (pad s) (app s);
         pad := pad s |}
  end.

Fixpoint run (evs : list Event) (s : State) : State :=
  match evs with
  | [] => s
  | ev :: rest => run rest (step ev s)
  end.

End Pad.

Module Aspect.

Inductive Ratio : Type := R1_1 | R16_9 | R9_16 | R4_3 | R3_4.

Record Target : Type := mkTarget { r : number; val : Ratio }.

(** The array [targets]: its first element and the others. *)
Definition first : Target := {| r := Fin 1; val := R1_1 |}.

Definition others : list Target :=
  [ {| r := (Fin 16 / Fin 9)%js; val := R16_9 |};
    {| r := (Fin 9 / Fin 16)%js; val := R9_16 |};
    {| r := (Fin 4 / Fin 3)%js; val := R4_3 |};
    {| r := (Fin 3 / Fin 4)%js; val := R3_4 |} ].

Definition targets : list Target := first :: others.

(** The callback of the [reduce]. *)
Definition closer (ratio : number) (prev curr : Target) : Target :=
  if (NumOps.Math_abs (r curr - ratio) <? NumOps.Math_abs (r prev - ratio))%js
  then curr else prev.

(** [targets.reduce(f)] with no initial value starts from the first
    element and folds the others from left to right. *)
Definition getClosestAspectRatio (width height : number) : Ratio :=
  let ratio := (width / height)%js in
  val (fold_left (closer ratio) others first).

End Aspect.

(* ================================================================= *)
(** ** What the main canvas shows *)

Module Raster.

(** [clearRect(0, 0, canvas.width, canvas.height)]: the call that wipes
    the whole canvas. *)
Definition clearsAll (w h : number) (op : CanvasEditor.DrawOp) : bool :=
  match op with
  | CanvasEditor.ClearRect x y cw ch =>
      NumOps.strictEq x (Fin 0) && NumOps.strictEq y (Fin 0)
      && NumOps.strictEq cw w && NumOps.strictEq ch h
  | _ => false
  end.

(** The operations that still show: those painted since the canvas was
    last wiped. *)
Fixpoint sinceClear (w h : number) (shown ops : list CanvasEditor.DrawOp)
    : list CanvasEditor.DrawOp :=
  match ops with
  | [] => shown
  | op :: rest =>
      if clearsAll w h op then sinceClear w h [] rest
      else sinceClear w h (shown ++ [op]) rest
  end.

Definition picture (st : CanvasEditor.State) : list CanvasEditor.DrawOp :=
  match CanvasEditor.mainCanvasRef st with
  | Some c =>
      sinceClear (CanvasEditor.width c) (CanvasEditor.height c) []
        (CanvasEditor.bitmap c)
  | None => []
  end.

End Raster.

(* ================================================================= *)
(** ** Conditions on the input of the canvas editor *)

Module Conditions.

(** An image and a bounding rectangle of finite, positive size. *)
Definition goodImage (img : Image.t) : Prop :=
  exists nw nh,
    img = {| Image.naturalWidth := Fin nw; Image.naturalHeight := Fin nh |}
    /\ 0 < nw /\ 0 < nh.

Definition goodRect (rect : DOMRect.t) : Prop :=
  exists l t w h,
    rect = {| DOMRect.left := Fin l; DOMRect.top := Fin t;
              DOMRect.width := Fin w; DOMRect.height := Fin h |}
    /\ 0 < w /\ 0 < h.

Definition finitePointer (ev : PointerInput) : Prop :=
  match CanvasEditor.clientPoint ev with
  | Some (x, y) => finite x /\ finite y
  | None => True
  end.

(** The pointer position an event on the canvas carries. *)
Definition pointerOf (ev : App.Event) : option PointerInput :=
  match ev with
  | App.MouseDown e | App.MouseMove e => Some (OfMouse e)
  | App.TouchStart e | App.TouchMove e => Some (OfTouch e)
  | _ => None
  end.

(** An action the canvas editor sees under normal layout: no new photo,
    a canvas of positive size, a pointer at a finite position. *)
Definition goodAction (a : Editor.Action) : Prop :=
  match a with
  | Editor.Input env ev =>
      goodRect (Editor.canvasRect env)
      /\ match pointerOf ev with
         | Some p => finitePointer p
         | None => True
         end
  | Editor.Load _ => False
  | Editor.Clear => True
  end.

(** A point of image space that lies on the image. *)
Definition inImage (img : Image.t) (p : Point.t) : Prop :=
  match Image.naturalWidth img, Image.naturalHeight img with
  | Fin nw, Fin nh => within 0 nw (Point.x p) /\ within 0 nh (Point.y p)
  | _, _ => False
  end.

Definition strokeInside (img : Image.t) (op : CanvasEditor.DrawOp) : Prop :=
  match op with
  | CanvasEditor.Stroke from to _ _ => inImage img from /\ inImage img to
  | _ => True
  end.

(** The commands that change the viewport without a pointer on the
    photo: the wheel, the zoom and reset buttons and the pan pad. *)
Definition viewportCommand (ev : App.Event) : bool :=
  match ev with
  | App.Wheel _ | App.ZoomInClick | App.ZoomOutClick | App.ResetViewClick
  | App.PanControl _ _ => true
  | _ => false
  end.

(** An action that is neither a press nor a new photo nor a clear. *)
Definition noPress (a : Editor.Action) : bool :=
  match a with
  | Editor.Input _ (App.MouseDown _) | Editor.Input _ (App.TouchStart _) => false
  | Editor.Input _ _ => true
  | _ => false
  end.

(** A press whose clamped mapping is null on the canvas state [c]: one
    that lands outside the rendered image. *)
Definition pressMisses (c : CanvasEditor.State) (a : Editor.Action) : Prop :=
  match a with
  | Editor.Input env (App.MouseDown e) =>
      CanvasEditor.getCoordinates c (Editor.canvasRect env) (OfMouse e) true
      = None
  | Editor.Input env (App.TouchStart e) =>
      CanvasEditor.getCoordinates c (Editor.canvasRect env) (OfTouch e) true
      = None
  | _ => False
  end.

(** The segments of a polyline from [p] through [ps], drawn with the
    brush of [props]. *)
Fixpoint polyline (props : CanvasEditor.Props) (p : Point.t)
    (ps : list Point.t) : list CanvasEditor.DrawOp :=
  match ps with
  | [] => []
  | q :: rest =>
      CanvasEditor.Stroke p q (CanvasEditor.brushColor props)
        (CanvasEditor.brushSize props)
      :: polyline props q rest
  end.

(** The moves of a stroke, each with the bounding rectangle the canvas
    has when it is handled. *)
Definition drawAll (props : CanvasEditor.Props)
    (inputs : list (DOMRect.t * PointerInput)) (st : CanvasEditor.State)
    : CanvasEditor.State :=
  fold_left (fun s i => CanvasEditor.draw props s (fst i) (snd i)) inputs st.

End Conditions.

(* ================================================================= *)
(** ** Strings and data URLs *)

(** The string operations [App.tsx] uses on data URLs.  Strings are
    sequences of one-byte characters here; the two line separators beyond
    ASCII (U+2028, U+2029) are not represented. *)
Module Str.

Local Open Scope string_scope.

(** [!s] for a string. *)
Definition isEmpty (s : string) : bool :=
  match s with
  | EmptyString => true
  | String _ _ => false
  end.

(** [s.split(sep)] for a separator of one character: the pieces between
    the separators, the empty string included; never an empty array. *)
Fixpoint split (sep : ascii) (s : string) : list string :=
  match s with
  | EmptyString => [EmptyString]
  | String a rest =>
      if Ascii.eqb a sep then EmptyString :: split sep rest
      else match split sep rest with
           | piece :: pieces => String a piece :: pieces
           | [] => [String a EmptyString]
           end
  end.

(** [s.includes(c)] for one character. *)
Fixpoint includes (c : ascii) (s : string) : bool :=
  match s with
  | EmptyString => false
  | String a rest => Ascii.eqb a c || includes c rest
  end.

(** What [.] of a regular expression does not match. *)
Definition isLineTerminator (a : ascii) : bool :=
  Ascii.eqb a "010"%char || Ascii.eqb a "013"%char.

(** [a === b] for values that are a string or [null]. *)
Definition optEq (a b : option string) : bool :=
  match a, b with
  | Some x, Some y => String.eqb x y
  | None, None => true
  | _, _ => false
  end.

(** Truthiness of a string or [null]. *)
Definition truthy (a : option string) : bool :=
  match a with
  | Some s => negb (isEmpty s)
  | None => false
  end.

End Str.

Module DataUrl.

Local Open Scope string_scope.

(** [(.*?);] tried at one position: the shortest run of characters other
    than line terminators that a [;] follows. *)
Fixpoint lazyUpToSemicolon (s : string) : option string :=
  match s with
  | EmptyString => None
  | String a rest =>
      if Ascii.eqb a ";"%char then Some EmptyString
      else if Str.isLineTerminator a then None
      else match lazyUpToSemicolon rest with
           | Some g => Some (String a g)
           | None => None
           end
  end.

(** [s.match(/:(.*?);/)?.[1]]: group 1 of the leftmost match, if any. *)
Fixpoint matchMime (s : string) : option string :=
  match s with
  | EmptyString => None
  | String a rest =>
      if Ascii.eqb a ":"%char
      then match lazyUpToSemicolon rest with
           | Some g => Some g
           | None => matchMime rest
           end
      else matchMime rest
  end.

(** [s.match(/:(.*?);/)?.[1] || 'image/png']. *)
Definition mimeOf (s : string) : string :=
  match matchMime s with
  | Some g => if Str.isEmpty g then "image/png" else g
  | None => "image/png"
  end.

(** The template [`data:${mimeType};base64,${data}`] of [handleGenerate]. *)
Definition build (mimeType data : string) : string :=
  "data:" ++ mimeType ++ ";base64," ++ data.

Record GeminiImagePart : Type := mkPart {
  base64Data : string;
  mimeType : string
}.

(** The base image of [handleGenerate] when a previous result is shown:
    the result's URL split at the commas; the left side is the message of
    the error thrown. *)
Definition partOfResult (previousResultUrl : string)
    : string + GeminiImagePart :=
  match Str.split ","%char previousResultUrl with
  | header :: base64Data :: _ =>
      if Str.isEmpty base64Data then inl "Invalid image data URL"
      else inr {| base64Data := base64Data; mimeType := mimeOf header |}
  | _ => inl "Invalid image data URL"
  end.

(** [parts[0].split(':')[1].split(';')[0]] of [handleEditResult]; [None]
    when [split(':')[1]] is undefined and the call on it throws. *)
Definition mimeString (dataUrl : string) : option string :=
  match Str.split ","%char dataUrl with
  | parts0 :: _ =>
      match Str.split ":"%char parts0 with
      | _ :: p1 :: _ =>
          match Str.split ";"%char p1 with
          | m :: _ => Some m
          | [] => None
          end
      | _ => None
      end
  | [] => None
  end.

(** [mimeString.split('/')[1] || 'png']. *)
Definition extension (mimeString : string) : string :=
  match Str.split "/"%char mimeString with
  | _ :: e :: _ => if Str.isEmpty e then "png" else e
  | _ => "png"
  end.

(** [parts[1]] as [atob] receives it: [undefined] is converted to the
    string "undefined". *)
Definition payload (dataUrl : string) : string :=
  match Str.split ","%char dataUrl with
  | _ :: d :: _ => d
  | _ => "undefined"
  end.

(** A string without commas, semicolons and line terminators. *)
Definition plain (s : string) : bool :=
  negb (Str.includes ","%char s) && negb (Str.includes ";"%char s)
  && negb (Str.includes "010"%char s) && negb (Str.includes "013"%char s).

End DataUrl.

(* ================================================================= *)
(** ** The uploaded images and the selection *)

Module Gallery.

Local Open Scope string_scope.

(** A [File], by its name and type; the app never reads its bytes. *)
Record File : Type := mkFile { name : string; type : string }.

Record UploadedImage : Type := mkImage {
  id : string;
  file : File;
  dataUrl : string
}.

Record ApiResult : Type := mkResult {
  text : option string;
  imageUrl : option string
}.

Definition noResult : ApiResult := {| text := None; imageUrl := None |}.

Record State : Type := mkState {
  uploadedImages : list UploadedImage;
  selectedImageId : option string;
  apiResult : ApiResult;
  error : option string;
  editingImage : option UploadedImage;
  isLayoutEditorOpen : bool
}.

(** The state of the first render. *)
Definition init : State :=
  {| uploadedImages := []; selectedImageId := None; apiResult := noResult;
     error := None; editingImage := None; isLayoutEditorOpen := false |}.

Definition hasId (i : option string) (img : UploadedImage) : bool :=
  Str.optEq (Some (id img)) i.

(** [uploadedImages.find(img => img.id === selectedImageId) || null]. *)
Definition selectedImage (st : State) : option UploadedImage :=
  find (hasId (selectedImageId st)) (uploadedImages st).

Definition handleImageSelect (i : string) (st : State) : State :=
  if negb (Str.optEq (Some i) (selectedImageId st))
  then {| uploadedImages := uploadedImages st;
          selectedImageId := Some i;
          apiResult := noResult;
          error := None;
          editingImage := editingImage st;
          isLayoutEditorOpen := isLayoutEditorOpen st |}
  else st.

Definition handleImageDelete (i : string) (st : State) : State :=
  let kept := filter (fun img => negb (String.eqb (id img) i)) in
  if Str.optEq (selectedImageId st) (Some i)
  then
    let remaining := kept (uploadedImages st) in
    {| uploadedImages := kept (uploadedImages st);
       selectedImageId := match remaining with
                          | img :: _ => Some (id img)
                          | [] => None
                          end;
       apiResult := noResult;
       error := None;
       editingImage := editingImage st;
       isLayoutEditorOpen := isLayoutEditorOpen st |}
  else
    {| uploadedImages := kept (uploadedImages st);
       selectedImageId := selectedImageId st;
       apiResult := apiResult st;
       error := error st;
       editingImage := editingImage st;
       isLayoutEditorOpen := isLayoutEditorOpen st |}.

Definition handleImageReorder (reorderedImages : list UploadedImage)
    (st : State) : State :=
  {| uploadedImages := reorderedImages;
     selectedImageId := selectedImageId st;
     apiResult := apiResult st;
     error := error st;
     editingImage := editingImage st;
     isLayoutEditorOpen := isLayoutEditorOpen st |}.

Definition handleClearResult (st : State) : State :=
  {| uploadedImages := uploadedImages st;
     selectedImageId := selectedImageId st;
     apiResult := noResult;
     error := None;
     editingImage := editingImage st;
     isLayoutEditorOpen := isLayoutEditorOpen st |}.

Definition handleOpenPhotoEditor (i : string) (st : State) : State :=
  match find (fun img => String.eqb (id img) i) (uploadedImages st) with
  | Some img =>
      {| uploadedImages := uploadedImages st;
         selectedImageId := selectedImageId st;
         apiResult := apiResult st;
         error := error st;
         editingImage := Some img;
         isLayoutEditorOpen := isLayoutEditorOpen st |}
  | None => st
  end.

Definition handleSavePhotoEditor (i newUrl : string) (st : State) : State :=
  {| uploadedImages :=
       map (fun img => if String.eqb (id img) i
                       then {| id := id img; file := file img;
                               dataUrl := newUrl |}
                       else img)
           (uploadedImages st);
     selectedImageId := selectedImageId st;
     apiResult := apiResult st;
     error := error st;
     editingImage := None;
     isLayoutEditorOpen := isLayoutEditorOpen st |}.

(** The new image is appended and selected.  [now1] and [now2] are the
    two readings of [Date.now()], as the template strings print them. *)
Definition handleLayoutComplete (newUrl now1 now2 : string) (st : State)
    : State :=
  let mime := DataUrl.mimeOf newUrl in
  let newImage := {| id := now2;
                     file := {| name := "layout-" ++ now1; type := mime |};
                     dataUrl := newUrl |} in
  {| uploadedImages := uploadedImages st ++ [newImage];
     selectedImageId := Some (id newImage);
     apiResult := apiResult st;
     error := error st;
     editingImage := editingImage st;
     isLayoutEditorOpen := false |}.

(** What the [try] block of [handleEditResult] builds, or [None] when it
    throws: on a [split(':')[1]] that is undefined, or in [atob].  The
    decoder [atob] of the browser is a parameter; it answers [None] when
    it throws. *)
Definition resultImage (atob : string -> option string)
    (url now1 now2 : string) : option UploadedImage :=
  match DataUrl.mimeString url with
  | Some mimeString =>
      let extension := DataUrl.extension mimeString in
      match atob (DataUrl.payload url) with
      | Some _ =>
          let filename := "result-" ++ now1 ++ "." ++ extension in
          Some {| id := filename ++ "-" ++ now2;
                  file := {| name := filename; type := mimeString |};
                  dataUrl := url |}
      | None => None
      end
  | None => None
  end.

Definition handleEditResult (atob : string -> option string)
    (now1 now2 : string) (st : State) : State :=
  match imageUrl (apiResult st) with
  | Some url =>
      if Str.isEmpty url then st
      else
        match resultImage atob url now1 now2 with
        | Some newImage =>
            {| uploadedImages := uploadedImages st ++ [newImage];
               selectedImageId := Some (id newImage);
               apiResult := noResult;
               error := None;
               editingImage := editingImage st;
               isLayoutEditorOpen := isLayoutEditorOpen st |}
        | None =>
            {| uploadedImages := uploadedImages st;
               selectedImageId := selectedImageId st;
               apiResult := apiResult st;
               error := Some "Could not load result image.";
               editingImage := editingImage st;
               isLayoutEditorOpen := isLayoutEditorOpen st |}
        end
  | None => st
  end.

(** The last [reader.onload] of [handleFiles]: [newImages] holds the
    images in the order their reads completed, and [captured] is the
    [selectedImageId] of the render in which [handleFiles] was called. *)
Definition filesLoaded (captured : option string)
    (newImages : list UploadedImage) (st : State) : State :=
  {| uploadedImages := uploadedImages st ++ newImages;
     selectedImageId :=
       match newImages with
       | img :: _ =>
           if negb (Str.truthy captured) then Some (id img)
           else selectedImageId st
       | [] => selectedImageId st
       end;
     apiResult := apiResult st;
     error := error st;
     editingImage := editingImage st;
     isLayoutEditorOpen := isLayoutEditorOpen st |}.

(** [setApiResult] and [setError] as [handleGenerate] calls them. *)
Definition setOutcome (r : ApiResult) (e : option string) (st : State)
    : State :=
  {| uploadedImages := uploadedImages st;
     selectedImageId := selectedImageId st;
     apiResult := r;
     error := e;
     editingImage := editingImage st;
     isLayoutEditorOpen := isLayoutEditorOpen st |}.

Inductive Event : Type :=
| Select (i : string)
| Delete (i : string)
| Reorder (reorderedImages : list UploadedImage)
| ClearResult
| OpenPhotoEditor (i : string)
| SavePhotoEditor (i newUrl : string)
| LayoutComplete (newUrl now1 now2 : string)
| EditResult (now1 now2 : string)
| FilesLoaded (captured : option string) (newImages : list UploadedImage)
| Outcome (r : ApiResult) (e : option string).

Definition step (atob : string -> option string) (ev : Event) (st : State)
    : State :=
  match ev with
  | Select i => handleImageSelect i st
  | Delete i => handleImageDelete i st
  | Reorder l => handleImageReorder l st
  | ClearResult => handleClearResult st
  | OpenPhotoEditor i => handleOpenPhotoEditor i st
  | SavePhotoEditor i u => handleSavePhotoEditor i u st
  | LayoutComplete u now1 now2 => handleLayoutComplete u now1 now2 st
  | EditResult now1 now2 => handleEditResult atob now1 now2 st
  | FilesLoaded captured newImages => filesLoaded captured newImages st
  | Outcome r e => setOutcome r e st
  end.

Fixpoint run (atob : string -> option string) (evs : list Event)
    (st : State) : State :=
  match evs with
  | [] => st
  | ev :: rest => run atob rest (step atob ev st)
  end.

(** What the thumbnail strip can ask for: it selects an image it shows,
    and a reordering is a permutation of the images it was given. *)
Definition allowed (st : State) (ev : Event) : Prop :=
  match ev with
  | Select i => In i (map id (uploadedImages st))
  | Reorder l => Permutation l (uploadedImages st)
  | _ => True
  end.

(** The selection is [null] or the id of an uploaded image. *)
Definition selectionValid (st : State) : Prop :=
  match selectedImageId st with
  | Some i => In i (map id (uploadedImages st))
  | None => True
  end.

Fixpoint allowedRun (atob : string -> option string) (evs : list Event)
    (st : State) : Prop :=
  match evs with
  | [] => True
  | ev :: rest => allowed st ev /\ allowedRun atob rest (step atob ev st)
  end.

End Gallery.
(* ================================================================= *)
(** ** The images a request sends along *)

(** The part of [handleGenerate] that gathers the images to send with an
    edit request.  The scan of the prompt by the regular expression is not
    modelled: [imageNumbers] lists [parseInt(match[1], 10)] for the
    matches, in the order the loop meets them. *)
Module References.

(** A part as it is pushed for a referenced image: [split(',')[1]] may be
    undefined. *)
Record Part : Type := mkPart {
  base64Data : option string;
  mimeType : string
}.

Definition partOf (img : Gallery.UploadedImage) : Part :=
  {| base64Data := nth_error (Str.split ","%char (Gallery.dataUrl img)) 1;
     mimeType := Gallery.type (Gallery.file img) |}.

(** [referencedIndices.add(i)] on a [Set], which keeps insertion order. *)
Definition add (s : list nat) (i : nat) : list nat :=
  if existsb (Nat.eqb i) s then s else s ++ [i].

(** The [while] loop over the matches. *)
Definition collect (imageNumbers : list nat) (length : nat) : list nat :=
  fold_left
    (fun s imageNumber =>
       if (0 <? imageNumber)%nat && (imageNumber <=? length)%nat
       then add s (imageNumber - 1)%nat else s)
    imageNumbers [].

(** [uploadedImages.findIndex(img => img.id === selectedImageId)]; [None]
    stands for -1. *)
Fixpoint findIndex (sel : option string) (l : list Gallery.UploadedImage)
    : option nat :=
  match l with
  | [] => None
  | img :: rest =>
      if Gallery.hasId sel img then Some 0%nat
      else option_map S (findIndex sel rest)
  end.

(** [index !== selectedIndex]. *)
Definition differs (index : nat) (selectedIndex : option nat) : bool :=
  match selectedIndex with
  | Some s => negb (Nat.eqb index s)
  | None => true
  end.

(** The callback of [referencedIndices.forEach]. *)
Definition pushReferenced (uploadedImages : list Gallery.UploadedImage)
    (selectedIndex : option nat) (imagesToSend : list Part) (index : nat)
    : list Part :=
  if differs index selectedIndex
  then match nth_error uploadedImages index with
       | Some referencedImage => imagesToSend ++ [partOf referencedImage]
       | None => imagesToSend
       end
  else imagesToSend.

Definition imagesToSend (baseImagePart : Part) (imageNumbers : list nat)
    (st : Gallery.State) : list Part :=
  let uploadedImages := Gallery.uploadedImages st in
  let referencedIndices := collect imageNumbers (List.length uploadedImages) in
  let selectedIndex := findIndex (Gallery.selectedImageId st) uploadedImages in
  fold_left (pushReferenced uploadedImages selectedIndex) referencedIndices
    [baseImagePart].

(** The indices whose images are sent, in the order they are sent. *)
Definition sentIndices (imageNumbers : list nat) (st : Gallery.State)
    : list nat :=
  let uploadedImages := Gallery.uploadedImages st in
  filter
    (fun index =>
       differs index (findIndex (Gallery.selectedImageId st) uploadedImages))
    (collect imageNumbers (List.length uploadedImages)).

End References.

(* ================================================================= *)
(** ** The result panel *)

(** [ResultDisplay]: which of its blocks the component renders. *)
Module ResultDisplay.

Record Props : Type := mkProps {
  loading : bool;
  error : option string;
  apiResult : Gallery.ApiResult
}.

Record View : Type := mkView {
  spinner : bool;
  errorBox : bool;
  placeholder : bool;
  result : bool;
  image : bool;
  textBox : bool
}.

Definition render (p : Props) : View :=
  let hasImage := Str.truthy (Gallery.imageUrl (apiResult p)) in
  let hasText := Str.truthy (Gallery.text (apiResult p)) in
  let quiet := negb (loading p) && negb (Str.truthy (error p)) in
  {| spinner := loading p;
     errorBox := Str.truthy (error p);
     placeholder := quiet && negb hasImage && negb hasText;
     result := quiet && (hasImage || hasText);
     image := quiet && (hasImage || hasText) && hasImage;
     textBox := quiet && (hasImage || hasText) && hasText |}.

End ResultDisplay.
(* ================================================================= *)
(** ** The preview overlay of the canvas editor *)

(** The second canvas of [CanvasEditor], on which [drawPreview] paints
    the brush cursor.  It is kept beside the state of the component: the
    handlers of the overlay read that state and never change it. *)
Module Preview.

(** What the 2D context of the preview canvas has been asked to paint:
    [Circle] stands for the path of one full [arc], filled and stroked. *)
Inductive Op : Type :=
| ClearRect (x y w h : number)
| Circle (x y radius : number) (fillStyle strokeStyle : string)
    (lineWidth : number).

Record Canvas : Type := mkCanvas {
  width : number;
  height : number;
  bitmap : list Op
}.

Definition newCanvas : Canvas :=
  {| width := Fin 300; height := Fin 150; bitmap := [] |}.

(** [previewCanvasRef] right after the first render. *)
Definition mounted : option Canvas := Some newCanvas.

(** The part of [img.onload] that sizes the preview canvas; setting the
    width or height of a canvas blanks it. *)
Definition onload (img : Image.t) (c : CanvasEditor.State)
    (previewCanvasRef : option Canvas) : option Canvas :=
  match CanvasEditor.mainCanvasRef c, previewCanvasRef with
  | Some _, Some _ =>
      Some {| width := Image.naturalWidth img;
              height := Image.naturalHeight img;
              bitmap := [] |}
  | _, _ => previewCanvasRef
  end.

(** [ctx.clearRect(0, 0, previewCanvas.width, previewCanvas.height)]. *)
Definition clear (p : Canvas) : Canvas :=
  {| width := width p; height := height p;
     bitmap := bitmap p ++ [ClearRect (Fin 0) (Fin 0) (width p) (height p)] |}.

Definition clearPreview (previewCanvasRef : option Canvas) : option Canvas :=
  match previewCanvasRef with
  | Some p => Some (clear p)
  | None => None
  end.

(** [drawPreview]: the canvas is cleared, then the cursor is painted at
    the coordinates mapped without clamping.  [arc] throws on a negative
    radius, and nothing is painted then. *)
Definition drawPreview (props : CanvasEditor.Props) (c : CanvasEditor.State)
    (rect : DOMRect.t) (e : MouseEvent.t) (previewCanvasRef : option Canvas)
    : option Canvas :=
  match previewCanvasRef with
  | Some p =>
      let cleared := clear p in
      match CanvasEditor.getCoordinates c rect (OfMouse e) false with
      | Some coords =>
          let radius := (CanvasEditor.brushSize props / Fin 2)%js in
          if (radius <? Fin 0)%js then Some cleared
          else
            Some {| width := width cleared; height := height cleared;
                    bitmap := bitmap cleared ++
                      [Circle (Point.x coords) (Point.y coords) radius
                         (CanvasEditor.brushColor props ++ "80")%string
                         (CanvasEditor.brushColor props) (Fin 2)] |}
      | None => Some cleared
      end
  | None => None
  end.

(** What an action of the editor does to the preview canvas; [c] is the
    state of the component when the action arrives.  Only
    [handleMouseMove] and [handleMouseLeave] touch the overlay. *)
Definition step (props : CanvasEditor.Props) (a : Editor.Action)
    (c : CanvasEditor.State) (previewCanvasRef : option Canvas)
    : option Canvas :=
  match a with
  | Editor.Input env (App.MouseMove e) =>
      drawPreview props c (Editor.canvasRect env) e previewCanvasRef
  | Editor.Input _ App.MouseLeave => clearPreview previewCanvasRef
  | Editor.Input _ _ => previewCanvasRef
  | Editor.Load img => onload img c previewCanvasRef
  | Editor.Clear => previewCanvasRef
  end.

(** The overlay along a run of the editor. *)
Fixpoint run (props : CanvasEditor.Props) (acts : list Editor.Action)
    (s : Editor.State) (previewCanvasRef : option Canvas) : option Canvas :=
  match acts with
  | [] => previewCanvasRef
  | a :: rest =>
      run props rest (Editor.step props a s)
        (step props a (Editor.canvas s) previewCanvasRef)
  end.

Definition clearsAll (w h : number) (op : Op) : bool :=
  match op with
  | ClearRect x y cw ch =>
      NumOps.strictEq x (Fin 0) && NumOps.strictEq y (Fin 0)
      && NumOps.strictEq cw w && NumOps.strictEq ch h
  | Circle _ _ _ _ _ _ => false
  end.

(** The operations that still show: those painted since the canvas was
    last wiped. *)
Fixpoint sinceClear (w h : number) (shown ops : list Op) : list Op :=
  match ops with
  | [] => shown
  | op :: rest =>
      if clearsAll w h op then sinceClear w h [] rest
      else sinceClear w h (shown ++ [op]) rest
  end.

Definition picture (previewCanvasRef : option Canvas) : list Op :=
  match previewCanvasRef with
  | Some p => sinceClear (width p) (height p) [] (bitmap p)
  | None => []
  end.

(** The photos that load have a finite size. *)
Definition finiteLoad (a : Editor.Action) : Prop :=
  match a with
  | Editor.Load img =>
      finite (Image.naturalWidth img) /\ finite (Image.naturalHeight img)
  | _ => True
  end.

(** A preview canvas of known size that shows at most one operation. *)
Definition tidy (pv : option Canvas) : Prop :=
  exists p, pv = Some p /\ width p <> NaN /\ height p <> NaN
            /\ (List.length (picture pv) <= 1)%nat.

End Preview.

(* ================================================================= *)
(** * Properties *)

(** Reading the fields of a concrete wheel event and rectangle. *)
Ltac event_fields :=
  cbn [WheelEvent.clientX WheelEvent.clientY WheelEvent.deltaY
       DOMRect.left DOMRect.top DOMRect.width DOMRect.height].

(** ** Arithmetic of finite numbers *)

Section NumberFacts.

Lemma div_fin (p q : Q) : ~ q == 0 -> (Fin p / Fin q)%js = Fin (p / q).
Proof.
  intros Hq. unfold div.
  destruct (Qcompare_spec q 0); [contradiction | reflexivity | reflexivity].
Qed.

Lemma lt_fin_true (p q : Q) : (Fin p <? Fin q)%js = true <-> p < q.
Proof.
  unfold lt.
  destruct (Qcompare_spec p q); split; intros;
    try discriminate; try reflexivity; lra.
Qed.

Lemma lt_fin_false (p q : Q) : (Fin p <? Fin q)%js = false <-> q <= p.
Proof.
  unfold lt.
  destruct (Qcompare_spec p q); split; intros;
    try discriminate; try reflexivity; lra.
Qed.

Lemma num_eq_refl (a : number) : a =j= a.
Proof. destruct a; simpl; auto. reflexivity. Qed.

Lemma num_eq_sym (a b : number) : a =j= b -> b =j= a.
Proof. destruct a, b; simpl; auto. intros H; symmetry; exact H. Qed.

Lemma num_eq_trans (a b c : number) : a =j= b -> b =j= c -> a =j= c.
Proof.
  destruct a, b, c; simpl; auto; try contradiction.
  intros H1 H2. rewrite H1. exact H2.
Qed.

(** Scaling a length [d] of a segment of length [w] that stands for [n]
    units stays within the [n] units. *)
Lemma scale_bound (d w n : Q) :
  0 < w -> 0 <= n -> 0 <= d <= w -> 0 <= d * (n / w) <= n.
Proof.
  intros Hw Hn [H0 H1].
  assert (Hs : 0 <= n / w) by (apply Qle_shift_div_l; lra).
  split; [nra|].
  assert (E : w * (n / w) == n) by (field; lra).
  nra.
Qed.

End NumberFacts.

(** ** The coordinate mapper *)

Section Mapper.

Import CanvasEditor.

Lemma containFit_wide (nw nh cw ch : Q) :
  0 < nw -> 0 < nh -> 0 < cw -> 0 < ch -> cw / ch < nw / nh ->
  containFit (Fin nw) (Fin nh) (Fin cw) (Fin ch) =
  {| renderedWidth := Fin cw;
     renderedHeight := Fin (cw / (nw / nh));
     offsetX := Fin 0;
     offsetY := Fin ((ch + - (cw / (nw / nh))) / 2) |}.
Proof.
  intros Hnw Hnh Hcw Hch Hlt. unfold containFit.
  rewrite !div_fin by lra.
  unfold gt. apply lt_fin_true in Hlt. rewrite Hlt.
  assert (0 < nw / nh) by (apply Qlt_shift_div_l; lra).
  rewrite !div_fin by lra. cbn [sub add neg].
  rewrite div_fin by lra. reflexivity.
Qed.

Lemma containFit_tall (nw nh cw ch : Q) :
  0 < nw -> 0 < nh -> 0 < cw -> 0 < ch -> nw / nh <= cw / ch ->
  containFit (Fin nw) (Fin nh) (Fin cw) (Fin ch) =
  {| renderedWidth := Fin (ch * (nw / nh));
     renderedHeight := Fin ch;
     offsetX := Fin ((cw + - (ch * (nw / nh))) / 2);
     offsetY := Fin 0 |}.
Proof.
  intros Hnw Hnh Hcw Hch Hle. unfold containFit.
  rewrite !div_fin by lra.
  unfold gt. apply lt_fin_false in Hle. rewrite Hle.
  cbn [sub add neg mul]. rewrite div_fin by lra. reflexivity.
Qed.

Lemma outside_fin_false (rw rh ox oy rx ry : Q) :
  outside {| renderedWidth := Fin rw; renderedHeight := Fin rh;
             offsetX := Fin ox; offsetY := Fin oy |} (Fin rx) (Fin ry) = false
  <-> (ox <= rx <= ox + rw /\ oy <= ry <= oy + rh).
Proof.
  unfold outside, gt.
  cbn [offsetX offsetY renderedWidth renderedHeight add].
  rewrite !orb_false_iff, !lt_fin_false. tauto.
Qed.

(** The contain-fit examples of the specification. *)
Example containFit_letterbox_top_bottom :
  containFit (Fin 1000) (Fin 500) (Fin 800) (Fin 800) =
  {| renderedWidth := Fin 800; renderedHeight := Fin (800 / (1000 / 500));
     offsetX := Fin 0; offsetY := Fin ((800 + - (800 / (1000 / 500))) / 2) |}
  /\ 800 / (1000 / 500) == 400
  /\ (800 + - (800 / (1000 / 500))) / 2 == 200.
Proof. repeat split. Qed.

Example containFit_letterbox_left_right :
  containFit (Fin 500) (Fin 1000) (Fin 800) (Fin 800) =
  {| renderedWidth := Fin (800 * (500 / 1000)); renderedHeight := Fin 800;
     offsetX := Fin ((800 + - (800 * (500 / 1000))) / 2); offsetY := Fin 0 |}
  /\ 800 * (500 / 1000) == 400
  /\ (800 + - (800 * (500 / 1000))) / 2 == 200.
Proof. repeat split. Qed.


End Mapper.

Section MapperCases.

Import CanvasEditor.


(** In that example the clamped mapping is null and the unclamped one
    has a negative ordinate. *)
Example letterbox_margin_null_or_negative :
  getCoordinates Sample.loaded Sample.box (OfMouse (Sample.mouse 100 50))
    true = None
  /\ exists x y,
       getCoordinates Sample.loaded Sample.box (OfMouse (Sample.mouse 100 50))
         false = Some {| Point.x := Fin x; Point.y := Fin y |}
       /\ x == 125 /\ y == -187.5.
Proof.
  split; [reflexivity|].
  eexists. eexists. split; [vm_compute; reflexivity|].
  split; reflexivity.
Qed.



End MapperCases.

(** ** Strokes *)

Section Strokes.

Import CanvasEditor.

Lemma strokes_strokeOn (props : Props) (st : State) (c : Canvas)
    (last coords : Point.t) :
  mainCanvasRef st = Some c ->
  strokes {| mainCanvasRef := strokeOn props last coords (mainCanvasRef st);
             isDrawing := isDrawing st;
             image := image st;
             lastPoint := Some coords |}
  = strokes st ++ [Stroke last coords (brushColor props) (brushSize props)].
Proof.
  intros Hc. unfold strokes. cbn [mainCanvasRef]. rewrite Hc.
  cbn [strokeOn bitmap]. rewrite filter_app. reflexivity.
Qed.

Lemma getCoordinates_some_canvas (st : State) (rect : DOMRect.t)
    (ev : PointerInput) (clamp : bool) (p : Point.t) :
  getCoordinates st rect ev clamp = Some p ->
  exists c, mainCanvasRef st = Some c.
Proof.
  unfold getCoordinates. destruct (mainCanvasRef st) as [c |]; [| discriminate].
  intros _. exists c. reflexivity.
Qed.

(** C6, as stated, fails.  A stroke starts inside the photo, the pointer
    moves into the letterbox margin (mapping null) and comes back: the
    out-of-bounds move leaves the previous point in place, and the first
    move back inside commits a segment from that point, recorded before
    the pointer left, to the re-entry point. *)
Lemma draw_null_keeps_last_point :
  let s1 := startDrawing Sample.loaded Sample.box
              (OfMouse (Sample.mouse 400 400)) in
  let s2 := draw Sample.brush s1 Sample.box (OfMouse (Sample.mouse 400 100)) in
  let s3 := draw Sample.brush s2 Sample.box (OfMouse (Sample.mouse 400 300)) in
  getCoordinates s1 Sample.box (OfMouse (Sample.mouse 400 100)) true = None
  /\ exists before after,
       lastPoint s1 = Some before
       /\ lastPoint s2 = Some before
       /\ strokes s2 = []
       /\ strokes s3 = [Stroke before after "#ff0000" (Fin 20)].
Proof.
  cbv zeta. split; [reflexivity|].
  eexists. eexists. repeat split; vm_compute; reflexivity.
Qed.

(** C6, amended.  While drawing, a pointer move whose clamped mapping is
    null is ignored: the state is unchanged, so no segment is committed,
    nothing is raised and the previous point is kept.  Hence the next
    move that maps inside the image commits a segment from the point
    recorded before the pointer left to the new point. *)
Theorem draw_null_is_ignored
    (props : Props) (st : State) (rect : DOMRect.t) (ev : PointerInput) :
  isDrawing st = true ->
  getCoordinates st rect ev true = None ->
  draw props st rect ev = st
  /\ forall (rect' : DOMRect.t) (ev' : PointerInput) (last coords : Point.t),
       lastPoint st = Some last ->
       getCoordinates st rect' ev' true = Some coords ->
       let st' := draw props (draw props st rect ev) rect' ev' in
       strokes st' =
         strokes st ++ [Stroke last coords (brushColor props) (brushSize props)]
       /\ lastPoint st' = Some coords
       /\ isDrawing st' = true.
Proof.
  intros Hd Hnull.
  assert (Hsame : draw props st rect ev = st).
  { unfold draw. rewrite Hd, Hnull. reflexivity. }
  split; [exact Hsame|].
  intros rect' ev' last coords Hlast Hsome st'. subst st'.
  rewrite Hsame. unfold draw. rewrite Hd, Hsome, Hlast. cbn [negb].
  destruct (getCoordinates_some_canvas _ _ _ _ _ Hsome) as [c Hc].
  split; [apply strokes_strokeOn with (c := c); exact Hc|].
  split; reflexivity.
Qed.

Lemma draw_null_is_ignored_witness :
  let st := startDrawing Sample.loaded Sample.box
              (OfMouse (Sample.mouse 400 400)) in
  draw Sample.brush st Sample.box (OfMouse (Sample.mouse 400 100)) = st
  /\ forall (rect' : DOMRect.t) (ev' : PointerInput) (last coords : Point.t),
       lastPoint st = Some last ->
       getCoordinates st rect' ev' true = Some coords ->
       let st' :=
         draw Sample.brush
           (draw Sample.brush st Sample.box (OfMouse (Sample.mouse 400 100)))
           rect' ev' in
       strokes st' = strokes st ++ [Stroke last coords "#ff0000" (Fin 20)]
       /\ lastPoint st' = Some coords
       /\ isDrawing st' = true.
Proof.
  exact (draw_null_is_ignored Sample.brush
           (startDrawing Sample.loaded Sample.box
              (OfMouse (Sample.mouse 400 400)))
           Sample.box (OfMouse (Sample.mouse 400 100)) eq_refl eq_refl).
Defined.

End Strokes.

(** ** Export *)

Section Exporting.

Import CanvasEditor.

(** Before the photo has loaded nothing is painted: the canvas stays the
    blank element the browser created, whatever the user does. *)
Lemma step_before_load (props : Props) (a : Editor.Action) (s : Editor.State) :
  Editor.isLoad a = false ->
  Editor.canvas s = mounted ->
  Editor.canvas (Editor.step props a s) = mounted.
Proof.
  intros Ha Hs. destruct a as [env ev | img |]; [| discriminate |].
  - cbn [Editor.step Editor.dispatch Editor.canvas]. rewrite Hs.
    destruct ev; reflexivity.
  - cbn [Editor.step Editor.canvas]. rewrite Hs. reflexivity.
Qed.

Lemma run_before_load (props : Props) (acts : list Editor.Action) :
  forall s : Editor.State,
    forallb (fun a => negb (Editor.isLoad a)) acts = true ->
    Editor.canvas s = mounted ->
    Editor.canvas (Editor.run props acts s) = mounted.
Proof.
  induction acts as [| a rest IH]; intros s Hall Hs; [exact Hs|].
  cbn [forallb] in Hall. apply andb_true_iff in Hall. destruct Hall as [Ha Hr].
  cbn [Editor.run]. apply IH; [exact Hr|].
  apply step_before_load; [| exact Hs].
  destruct (Editor.isLoad a); [discriminate | reflexivity].
Qed.

(** C9, as stated, fails.  With the canvas mounted and no photo loaded,
    the export is the browser's encoding of the blank canvas, not the
    empty string. *)
Lemma toDataURL_before_load_is_blank :
  image mounted = None
  /\ toDataURL mounted None None = Encoded newCanvas None None
  /\ bitmap newCanvas = []
  /\ toDataURL mounted None None <> EmptyString.
Proof. repeat split. discriminate. Qed.

(** C9, amended.  [toDataURL] answers the empty string only when the
    canvas element is not mounted.  In every state the mounted editor
    reaches before a photo has loaded, whatever the gestures and clear
    requests, no image is bound and the export is the encoding of the
    blank 300 x 150 canvas. *)
Theorem toDataURL_without_photo
    (props : Props) (acts : list Editor.Action)
    (type : option string) (quality : option number) :
  forallb (fun a => negb (Editor.isLoad a)) acts = true ->
  let st := Editor.canvas (Editor.run props acts Editor.init) in
  image st = None
  /\ toDataURL st type quality = Encoded newCanvas type quality
  /\ bitmap newCanvas = []
  /\ (forall st', mainCanvasRef st' = None ->
                  toDataURL st' type quality = EmptyString).
Proof.
  intros Hall st. subst st.
  rewrite (run_before_load props acts Editor.init Hall eq_refl).
  repeat split.
  intros st' H. unfold toDataURL. rewrite H. reflexivity.
Qed.

(** A press, a drag and a clear request before the photo arrives. *)
Lemma toDataURL_without_photo_witness :
  let acts :=
    [Editor.Input Sample.env (App.MouseDown (Sample.mouse 400 400));
     Editor.Input Sample.env (App.MouseMove (Sample.mouse 400 300));
     Editor.Clear] in
  let st := Editor.canvas (Editor.run Sample.brush acts Editor.init) in
  image st = None
  /\ toDataURL st (Some "image/png"%string) None
     = Encoded newCanvas (Some "image/png"%string) None
  /\ bitmap newCanvas = []
  /\ (forall st', mainCanvasRef st' = None ->
                  toDataURL st' (Some "image/png"%string) None = EmptyString).
Proof.
  exact (toDataURL_without_photo Sample.brush
           [Editor.Input Sample.env (App.MouseDown (Sample.mouse 400 400));
            Editor.Input Sample.env (App.MouseMove (Sample.mouse 400 300));
            Editor.Clear]
           (Some "image/png"%string) None eq_refl).
Defined.

End Exporting.

(** ** The viewport: clamping *)

Section Clamp.

Import App.

Lemma Math_min_3_fin (v : Q) :
  Math_min (Fin 3) (Fin v) = if Qlt_le_dec v 3 then Fin v else Fin 3.
Proof.
  unfold Math_min. destruct (Qlt_le_dec v 3) as [H | H].
  - apply lt_fin_true in H. rewrite H. reflexivity.
  - apply lt_fin_false in H. rewrite H. reflexivity.
Qed.

Lemma Math_max_1_fin (v : Q) :
  Math_max (Fin 1) (Fin v) = if Qlt_le_dec 1 v then Fin v else Fin 1.
Proof.
  unfold Math_max. destruct (Qlt_le_dec 1 v) as [H | H].
  - apply lt_fin_true in H. rewrite H. reflexivity.
  - apply lt_fin_false in H. rewrite H. reflexivity.
Qed.

Lemma clampZoom_high (v : Q) : 3 <= v -> clampZoom (Fin v) = Fin 3.
Proof.
  intros H. unfold clampZoom. rewrite Math_min_3_fin.
  destruct (Qlt_le_dec v 3); [lra|]. reflexivity.
Qed.

Lemma clampZoom_low (v : Q) : v <= 1 -> clampZoom (Fin v) = Fin 1.
Proof.
  intros H. unfold clampZoom. rewrite Math_min_3_fin.
  destruct (Qlt_le_dec v 3); [| lra].
  rewrite Math_max_1_fin. destruct (Qlt_le_dec 1 v); [lra|]. reflexivity.
Qed.

Lemma clampZoom_mid (v : Q) : 1 < v < 3 -> clampZoom (Fin v) = Fin v.
Proof.
  intros H. unfold clampZoom. rewrite Math_min_3_fin.
  destruct (Qlt_le_dec v 3); [| lra].
  rewrite Math_max_1_fin. destruct (Qlt_le_dec 1 v); [|lra]. reflexivity.
Qed.

Lemma clampZoom_fin_within (v : Q) : within 1 3 (clampZoom (Fin v)).
Proof.
  destruct (Qlt_le_dec v 3) as [H3 | H3].
  - destruct (Qlt_le_dec 1 v) as [H1 | H1].
    + rewrite clampZoom_mid by lra. simpl. lra.
    + rewrite clampZoom_low by lra. simpl. lra.
  - rewrite clampZoom_high by lra. simpl. lra.
Qed.

(** The clamp lets [NaN] through, and only [NaN]. *)
Lemma clampZoom_within_or_nan (v : number) :
  within 1 3 (clampZoom v) \/ (v = NaN /\ clampZoom v = NaN).
Proof.
  destruct v as [q | | |].
  - left. apply clampZoom_fin_within.
  - left. vm_compute. split; discriminate.
  - left. vm_compute. split; discriminate.
  - right. split; reflexivity.
Qed.

Lemma mul_fin_unit (a : number) (k : Q) : k == 1 -> (a * Fin k)%js =j= a.
Proof.
  intros Hk. destruct a as [p | | |]; simpl.
  - rewrite Hk. ring.
  - assert (H : (k ?= 0) = Gt) by (apply Qgt_alt; lra). rewrite H. exact I.
  - assert (H : (k ?= 0) = Gt) by (apply Qgt_alt; lra). rewrite H. exact I.
  - exact I.
Qed.

Lemma add_fin_zero (a b : number) (e : Q) :
  e == 0 -> a =j= b -> (Fin e + a)%js =j= b.
Proof.
  intros He. destruct a as [p | | |], b as [q | | |]; simpl; auto.
  intros H. rewrite He, H. ring.
Qed.

Lemma num_eq_fin (a : number) (q : Q) :
  a =j= Fin q -> exists p, a = Fin p /\ p == q.
Proof.
  destruct a as [p | | |]; simpl; try contradiction.
  intros H. exists p. split; [reflexivity | exact H].
Qed.

End Clamp.

(** ** The viewport: the zoom stays in range for well-formed input *)

Section ZoomRange.

Import App.

Lemma Qsq_nonneg (a : Q) : 0 <= a * a.
Proof. nra. Qed.

Lemma Qsq_pos (a : Q) : ~ a == 0 -> 0 < a * a.
Proof.
  intros H.
  destruct (Q_dec a 0) as [[H1 | H1] | H1]; [nra | nra | contradiction].
Qed.

Lemma Qsqrt_pos (q : Q) : 0 < q -> 0 < Qsqrt q.
Proof.
  destruct q as [n d]. unfold Qlt, Qsqrt. cbn [Qnum Qden].
  intros H. rewrite Z.mul_1_r in *. cbn in H |- *.
  apply Z.sqrt_pos. lia.
Qed.

Lemma distance_apart (t1 t2 : Touch.t) :
  Spec.finiteTouch t1 -> Spec.finiteTouch t2 -> Spec.apart t1 t2 ->
  exists d, distance t1 t2 = Fin d /\ 0 < d.
Proof.
  destruct t1 as [x1 y1], t2 as [x2 y2].
  unfold Spec.finiteTouch, Spec.apart, distance. cbn [Touch.clientX Touch.clientY].
  intros [Hx1 Hy1] [Hx2 Hy2] Hap.
  destruct x1 as [x1 | | |], y1 as [y1 | | |]; try contradiction.
  destruct x2 as [x2 | | |], y2 as [y2 | | |]; try contradiction.
  cbn [sub add neg Math_hypot num_eq] in *.
  eexists. split; [reflexivity|].
  apply Qsqrt_pos.
  pose proof (Qsq_nonneg (x1 + - x2)) as Hsx.
  pose proof (Qsq_nonneg (y1 + - y2)) as Hsy.
  destruct (Qeq_dec x1 x2) as [Ex | Ex].
  - destruct (Qeq_dec y1 y2) as [Ey | Ey]; [tauto|].
    assert (Hy : 0 < (y1 + - y2) * (y1 + - y2))
      by (apply Qsq_pos; intros E; apply Ey; lra).
    lra.
  - assert (Hx : 0 < (x1 + - x2) * (x1 + - x2))
      by (apply Qsq_pos; intros E; apply Ex; lra).
    lra.
Qed.

Lemma distance_finite (t1 t2 : Touch.t) :
  Spec.finiteTouch t1 -> Spec.finiteTouch t2 ->
  exists d, distance t1 t2 = Fin d.
Proof.
  destruct t1 as [x1 y1], t2 as [x2 y2].
  unfold Spec.finiteTouch, distance. cbn [Touch.clientX Touch.clientY].
  intros [Hx1 Hy1] [Hx2 Hy2].
  destruct x1 as [x1 | | |], y1 as [y1 | | |]; try contradiction.
  destruct x2 as [x2 | | |], y2 as [y2 | | |]; try contradiction.
  eexists. reflexivity.
Qed.

Lemma within_fin (lo hi : Q) (a : number) :
  within lo hi a -> exists q, a = Fin q /\ lo <= q <= hi.
Proof.
  destruct a as [q | | |]; simpl; try contradiction.
  intros H. exists q. split; [reflexivity | exact H].
Qed.

Lemma zoomInv_ext (s s' : State) :
  zoom s' = zoom s -> pinchStartRef s' = pinchStartRef s ->
  Spec.zoomInv s -> Spec.zoomInv s'.
Proof. unfold Spec.zoomInv. intros -> ->. exact (fun H => H). Qed.

Lemma zoomInv_no_pinch (s s' : State) :
  zoom s' = zoom s -> pinchStartRef s' = None -> Spec.zoomInv s -> Spec.zoomInv s'.
Proof.
  unfold Spec.zoomInv. intros -> ->. intros [Hz _]. split; [exact Hz|].
  intros a Ha. discriminate Ha.
Qed.

Lemma zoomInv_handlePanStart (container : option DOMRect.t) (x y : number)
    (s : State) :
  Spec.zoomInv s -> Spec.zoomInv (handlePanStart container x y s).
Proof.
  intros H. unfold handlePanStart. destruct container; [| exact H].
  apply (zoomInv_ext s); [reflexivity | reflexivity | exact H].
Qed.

Lemma zoomInv_handlePanMove (x y : number) (s : State) :
  Spec.zoomInv s -> Spec.zoomInv (handlePanMove x y s).
Proof.
  intros H. unfold handlePanMove. destruct (negb (isPanning s)); [exact H|].
  apply (zoomInv_ext s); [reflexivity | reflexivity | exact H].
Qed.

Lemma zoomInv_pinchMove (container : option DOMRect.t) (t1 t2 : Touch.t)
    (a : PinchStart.t) (s : State) :
  Spec.finiteTouch t1 -> Spec.finiteTouch t2 ->
  pinchStartRef s = Some a ->
  Spec.zoomInv s -> Spec.zoomInv (pinchMove container t1 t2 a s).
Proof.
  intros H1 H2 Ea Hinv. unfold pinchMove.
  destruct container as [rect |]; [| exact Hinv].
  destruct Hinv as [Hz Hp].
  destruct (Hp a Ea) as [Hza [d [Ed Hd]]].
  destruct (within_fin _ _ _ Hza) as [za [Eza Hzar]].
  destruct (distance_finite t1 t2 H1 H2) as [nd End'].
  split.
  - cbn [zoom setPan setZoom]. rewrite End', Ed, Eza.
    rewrite div_fin by lra. cbn [mul]. apply clampZoom_fin_within.
  - cbn [pinchStartRef setPan setZoom]. exact Hp.
Qed.

Lemma handle_zoomInv (container : option DOMRect.t) (ev : Event) (s : State) :
  Spec.wellFormed ev -> Spec.zoomInv s -> Spec.zoomInv (handle container ev s).
Proof.
  intros Hwf Hinv.
  destruct ev as [e | e | e | | | e | e | e | | | | dx dy]; cbn [handle].
  - (* wheel *)
    unfold handleWheel. destruct container as [rect |]; [| exact Hinv].
    cbn [Spec.wellFormed] in Hwf.
    destruct (WheelEvent.deltaY e) as [d | | |]; try contradiction.
    destruct Hinv as [Hz Hp].
    destruct (within_fin _ _ _ Hz) as [z [Ez Hzr]].
    split; [| exact Hp].
    cbn [zoom setZoom setPan]. rewrite Ez. cbn [neg mul add].
    apply clampZoom_fin_within.
  - unfold onMouseDown. destruct (negb _); [exact Hinv|].
    apply zoomInv_handlePanStart. exact Hinv.
  - apply zoomInv_handlePanMove. exact Hinv.
  - exact Hinv.
  - exact Hinv.
  - (* touch start *)
    unfold onTouchStart. cbn [Spec.wellFormed] in Hwf.
    destruct (TouchEvent.touches e) as [| t1 [| t2 [| t3 rest]]];
      try exact Hinv.
    + apply zoomInv_handlePanStart.
      apply (zoomInv_no_pinch s); [reflexivity | reflexivity | exact Hinv].
    + destruct Hwf as [H1 [H2 Hap]]. destruct Hinv as [Hz Hp].
      split; [exact Hz|].
      cbn [pinchStartRef setPinchStartRef]. intros a Ha.
      inversion Ha; subst a; clear Ha. cbn [PinchStart.zoom PinchStart.dist].
      split; [exact Hz | apply distance_apart; assumption].
  - (* touch move *)
    unfold onTouchMove. cbn [Spec.wellFormed] in Hwf.
    destruct (TouchEvent.touches e) as [| t1 [| t2 [| t3 rest]]].
    + destruct (pinchStartRef s); exact Hinv.
    + assert (Hone : Spec.zoomInv
                (if isPanning s
                 then handlePanMove (Touch.clientX t1) (Touch.clientY t1) s
                 else s)).
      { destruct (isPanning s); [| exact Hinv].
        apply zoomInv_handlePanMove. exact Hinv. }
      destruct (pinchStartRef s); exact Hone.
    + destruct (pinchStartRef s) as [a |] eqn:Ea; [| exact Hinv].
      destruct Hwf as [H1 H2].
      apply zoomInv_pinchMove; assumption.
    + destruct (pinchStartRef s); exact Hinv.
  - (* touch end *)
    unfold onTouchEnd. cbv zeta.
    assert (H2 : Spec.zoomInv
              (if (List.length (TouchEvent.touches e) <? 2)%nat
               then setPinchStartRef None (handlePanEnd s)
               else handlePanEnd s)).
    { destruct (_ <? _)%nat.
      - apply (zoomInv_no_pinch s); [reflexivity | reflexivity | exact Hinv].
      - apply (zoomInv_ext s); [reflexivity | reflexivity | exact Hinv]. }
    destruct (TouchEvent.touches e) as [| t1 [| t2 rest]]; try exact H2.
    apply zoomInv_handlePanStart. exact H2.
  - (* zoom in *)
    destruct Hinv as [Hz Hp].
    destruct (within_fin _ _ _ Hz) as [z [Ez Hzr]].
    split; [| exact Hp].
    unfold zoomInClick. cbn [zoom setZoom]. rewrite Ez. cbn [add].
    rewrite Math_min_3_fin.
    destruct (Qlt_le_dec (z + 0.2) 3); simpl; lra.
  - destruct Hinv as [Hz Hp].
    destruct (within_fin _ _ _ Hz) as [z [Ez Hzr]].
    split; [| exact Hp].
    unfold zoomOutClick. cbn [zoom setZoom]. rewrite Ez. cbn [sub add neg].
    rewrite Math_max_1_fin.
    destruct (Qlt_le_dec 1 (z + - (0.2))); simpl; lra.
  - destruct Hinv as [Hz Hp]. split; [simpl; lra | exact Hp].
  - apply (zoomInv_ext s); [reflexivity | reflexivity | exact Hinv].
Qed.

Lemma zoomInv_init : Spec.zoomInv init.
Proof.
  split; [simpl; lra|]. intros a Ha. discriminate Ha.
Qed.

Lemma trace_zoomInv (container : option DOMRect.t) (evs : list Event) :
  forall s, Forall Spec.wellFormed evs -> Spec.zoomInv s ->
            Forall Spec.zoomInv (trace container evs s).
Proof.
  induction evs as [| ev rest IH]; intros s Hwf Hinv; cbn [trace].
  - constructor; [exact Hinv | constructor].
  - inversion Hwf as [| ? ? Hev Hrest]; subst.
    constructor; [exact Hinv|].
    apply IH; [exact Hrest | apply handle_zoomInv; assumption].
Qed.

(** For well-formed events the zoom is within [1, 3] all along. *)
Lemma zoom_within_range (container : option DOMRect.t) (evs : list Event) :
  Forall Spec.wellFormed evs ->
  Forall (fun s => within 1 3 (zoom s)) (trace container evs init).
Proof.
  intros Hwf.
  apply Forall_impl with (P := Spec.zoomInv); [intros s [H _]; exact H|].
  apply trace_zoomInv; [exact Hwf | exact zoomInv_init].
Qed.

(** C1.  Two touches reported at one and the same place start a pinch of
    distance zero; when they move together the new distance is zero too,
    the scale is [0 / 0], and the clamp lets the [NaN] through: the zoom
    is [NaN], neither within [[1, 3]] nor comparable with anything. *)
Theorem pinch_at_one_place_zoom_nan :
  let evs :=
    [TouchStart (Sample.touches [Sample.touch 100 100; Sample.touch 100 100]);
     TouchMove (Sample.touches [Sample.touch 101 100; Sample.touch 101 100])] in
  let s := run (Some Sample.container) evs init in
  zoom s = NaN /\ ~ within 1 3 (zoom s).
Proof.
  cbv zeta. split; [reflexivity|].
  intros H. exact H.
Qed.

End ZoomRange.

(** ** The viewport: wheel, pinch and buttons *)

Section Viewport.

Import App.

(** C10.  A wheel event that pushes past a limit the zoom is already at
    (zoom 3 and a positive [delta = -deltaY * 0.005], or zoom 1 and a
    negative one) leaves the viewport as it is: the zoom and both
    coordinates of the pan keep their values, and so do the gesture flag
    and the refs. *)
Theorem handleWheel_at_limit_is_identity
    (s : State) (z l t w h x y d : Q) :
  zoom s = Fin z ->
  (z == 3 /\ 0 < - d * 0.005) \/ (z == 1 /\ - d * 0.005 < 0) ->
  let rect := {| DOMRect.left := Fin l; DOMRect.top := Fin t;
                 DOMRect.width := Fin w; DOMRect.height := Fin h |} in
  let e := {| WheelEvent.clientX := Fin x; WheelEvent.clientY := Fin y;
              WheelEvent.deltaY := Fin d |} in
  let s' := handleWheel (Some rect) e s in
  zoom s' =j= zoom s
  /\ Point.x (pan s') =j= Point.x (pan s)
  /\ Point.y (pan s') =j= Point.y (pan s)
  /\ isPanning s' = isPanning s
  /\ panStartRef s' = panStartRef s
  /\ pinchStartRef s' = pinchStartRef s.
Proof.
  intros Hz Hlim rect e s'. subst s' rect e.
  unfold handleWheel.
  event_fields.
  rewrite Hz.
  assert (Hw2 : ~ 2 == 0) by (intros H; discriminate H).
  rewrite !div_fin by exact Hw2.
  cbn [neg mul add sub].
  set (v := z + - d * 0.005 * z).
  assert (Hnew : exists n, clampZoom (Fin v) = Fin n /\ n == z).
  { destruct Hlim as [[Hz3 Hd] | [Hz1 Hd]].
    - exists 3. split; [| symmetry; exact Hz3].
      apply clampZoom_high. subst v. nra.
    - exists 1. split; [| symmetry; exact Hz1].
      apply clampZoom_low. subst v. nra. }
  destruct Hnew as [n [Hn Hnz]]. rewrite Hn.
  assert (Hz0 : ~ z == 0) by (destruct Hlim as [[H _] | [H _]]; lra).
  rewrite div_fin by exact Hz0.
  assert (Hk : n / z == 1) by (rewrite Hnz; field; exact Hz0).
  cbn [setZoom setPan zoom pan isPanning panStartRef pinchStartRef neg add mul
       Point.x Point.y].
  split; [simpl; exact Hnz|].
  split; [| split].
  - apply add_fin_zero; [rewrite Hk; ring | apply mul_fin_unit; exact Hk].
  - apply add_fin_zero; [rewrite Hk; ring | apply mul_fin_unit; exact Hk].
  - repeat split.
Qed.

Lemma handleWheel_at_limit_is_identity_witness :
  let s := setZoom (Fin 3) (setPan (Sample.point 40 (-25)) init) in
  let s' := handleWheel (Some (Sample.rect 0 0 800 600))
              (Sample.wheel 600 300 (-100)) s in
  zoom s' =j= zoom s
  /\ Point.x (pan s') =j= Point.x (pan s)
  /\ Point.y (pan s') =j= Point.y (pan s)
  /\ isPanning s' = isPanning s
  /\ panStartRef s' = panStartRef s
  /\ pinchStartRef s' = pinchStartRef s.
Proof.
  exact (handleWheel_at_limit_is_identity
           (setZoom (Fin 3) (setPan (Sample.point 40 (-25)) init))
           3 0 0 800 600 600 300 (-100)
           eq_refl (or_introl (conj eq_refl eq_refl))).
Defined.

(** C3, as stated, fails.  A pinch starts with the touches 100 apart
    around the midpoint (150, 200), at zoom 1 and pan (0, 0); the touches
    move to 200 apart around the same midpoint.  The zoom becomes 2, and
    the pan becomes (-150, -200): it does not stay (0, 0). *)
Lemma pinch_same_midpoint_counter :
  let s1 := onTouchStart (Some Sample.container)
              (Sample.touches [Sample.touch 100 200; Sample.touch 200 200])
              init in
  let s2 := onTouchMove (Some Sample.container)
              (Sample.touches [Sample.touch 50 200; Sample.touch 250 200])
              s1 in
  (exists a, pinchStartRef s1 = Some a
             /\ PinchStart.dist a =j= Fin 100
             /\ PinchStart.zoom a = Fin 1
             /\ PinchStart.pan a = origin
             /\ Point.x (PinchStart.mid a) =j= Fin 150
             /\ Point.y (PinchStart.mid a) =j= Fin 200)
  /\ distance (Sample.touch 50 200) (Sample.touch 250 200) =j= Fin 200
  /\ Point.x (midpoint (Sample.touch 50 200) (Sample.touch 250 200)) =j= Fin 150
  /\ Point.y (midpoint (Sample.touch 50 200) (Sample.touch 250 200)) =j= Fin 200
  /\ zoom s2 =j= Fin 2
  /\ Point.x (pan s2) =j= Fin (-150)
  /\ Point.y (pan s2) =j= Fin (-200)
  /\ ~ Point.x (pan s2) =j= Point.x (pan s1).
Proof.
  cbv zeta. split.
  - eexists. split; [reflexivity|]. repeat split.
  - repeat split. intros H. vm_compute in H. discriminate H.
Qed.

(** C3, amended.  From an anchor with start distance 100, start zoom 1
    and start pan (0, 0), touches that are 200 apart around the anchor's
    midpoint give zoom 2 and the pan [newMidOnScreen - worldPoint * 2],
    which is minus the midpoint's position in the container: the world
    point [(midpoint - pan) / zoom] stays under the midpoint for a layer
    drawn at [pan + zoom * world]. *)
Theorem pinch_double_distance
    (s : State) (a : PinchStart.t) (mx my l t w h : Q) (t1 t2 : Touch.t) :
  pinchStartRef s = Some a ->
  PinchStart.dist a =j= Fin 100 ->
  PinchStart.zoom a =j= Fin 1 ->
  Spec.point_eq (PinchStart.pan a) origin ->
  Spec.point_eq (PinchStart.mid a) {| Point.x := Fin mx; Point.y := Fin my |} ->
  distance t1 t2 =j= Fin 200 ->
  Spec.point_eq (midpoint t1 t2) (PinchStart.mid a) ->
  let rect := {| DOMRect.left := Fin l; DOMRect.top := Fin t;
                 DOMRect.width := Fin w; DOMRect.height := Fin h |} in
  let s' := onTouchMove (Some rect) {| TouchEvent.touches := [t1; t2] |} s in
  zoom s' =j= Fin 2
  /\ Point.x (pan s') =j= Fin (- (mx - l))
  /\ Point.y (pan s') =j= Fin (- (my - t)).
Proof.
  intros Hp Hdist Hzoom [Hpx Hpy] [Hmx Hmy] Hd [Hx Hy] rect s'. subst s' rect.
  unfold onTouchMove. cbn [TouchEvent.touches]. rewrite Hp.
  unfold pinchMove.
  destruct (num_eq_fin _ _ Hdist) as [d0 [Ed0 Hd0]].
  destruct (num_eq_fin _ _ Hzoom) as [z0 [Ez0 Hz0]].
  destruct (num_eq_fin _ _ Hpx) as [px [Epx Hpx2]].
  destruct (num_eq_fin _ _ Hpy) as [py [Epy Hpy2]].
  destruct (num_eq_fin _ _ Hmx) as [ax [Eax Hax]].
  destruct (num_eq_fin _ _ Hmy) as [ay [Eay Hay]].
  destruct (num_eq_fin _ _ Hd) as [d [Ed Hd2]].
  rewrite Eax in Hx. rewrite Eay in Hy.
  destruct (num_eq_fin _ _ Hx) as [x [Ex Hx2]].
  destruct (num_eq_fin _ _ Hy) as [y [Ey Hy2]].
  rewrite Ed, Ex, Ey, Ed0, Ez0, Epx, Epy, Eax, Eay.
  cbn [DOMRect.left DOMRect.top Point.x Point.y].
  assert (Hd0' : ~ d0 == 0) by (rewrite Hd0; intros H'; discriminate H').
  assert (Hz0' : ~ z0 == 0) by (rewrite Hz0; intros H'; discriminate H').
  rewrite div_fin by exact Hd0'.
  cbn [mul sub add neg]. rewrite !div_fin by exact Hz0'.
  assert (Ev : z0 * (d / d0) == 2) by (rewrite Hz0, Hd2, Hd0; reflexivity).
  rewrite clampZoom_mid by (rewrite Ev; split; reflexivity).
  cbn [setPan setZoom zoom pan Point.x Point.y mul sub add neg num_eq].
  split; [exact Ev|].
  split.
  - rewrite Ev, Hx2, Hax, Hpx2, Hz0. cbn [origin Point.x]. field.
  - rewrite Ev, Hy2, Hay, Hpy2, Hz0. cbn [origin Point.y]. field.
Qed.

Lemma pinch_double_distance_witness :
  let s := onTouchStart (Some Sample.container)
             (Sample.touches [Sample.touch 100 200; Sample.touch 200 200])
             init in
  let s' := onTouchMove (Some (Sample.rect 0 0 800 600))
              (Sample.touches [Sample.touch 50 200; Sample.touch 250 200]) s in
  zoom s' =j= Fin 2
  /\ Point.x (pan s') =j= Fin (- (150 - 0))
  /\ Point.y (pan s') =j= Fin (- (200 - 0)).
Proof.
  exact (pinch_double_distance
           (onTouchStart (Some Sample.container)
              (Sample.touches [Sample.touch 100 200; Sample.touch 200 200])
              init)
           {| PinchStart.dist :=
                distance (Sample.touch 100 200) (Sample.touch 200 200);
              PinchStart.mid :=
                midpoint (Sample.touch 100 200) (Sample.touch 200 200);
              PinchStart.zoom := Fin 1;
              PinchStart.pan := origin |}
           150 200 0 0 800 600
           (Sample.touch 50 200) (Sample.touch 250 200)
           eq_refl eq_refl eq_refl (conj eq_refl eq_refl)
           (conj eq_refl eq_refl) eq_refl (conj eq_refl eq_refl)).
Defined.

(** C8, as stated, fails.  At zoom 1 with pan (10, 0) the zoom-in button
    gives zoom 1.2 and leaves the pan at (10, 0); no wheel event with the
    cursor at the centre of the container gives that zoom and that pan,
    since the wheel path multiplies the pan by the zoom ratio. *)
Lemma zoomIn_not_a_centred_wheel :
  let s := setPan (Sample.point 10 0) init in
  zoom (zoomInClick s) =j= Fin 1.2
  /\ pan (zoomInClick s) = pan s
  /\ ~ exists d : Q,
        let s' := handleWheel (Some Sample.container) (Sample.wheel 400 300 d) s in
        zoom s' =j= zoom (zoomInClick s)
        /\ Point.x (pan s') =j= Point.x (pan (zoomInClick s)).
Proof.
  cbv zeta. split; [reflexivity|]. split; [reflexivity|].
  intros [d [Hz Hp]].
  unfold handleWheel, Sample.container, Sample.rect, Sample.wheel in Hz, Hp.
  cbn [WheelEvent.clientX WheelEvent.clientY WheelEvent.deltaY
       DOMRect.left DOMRect.top DOMRect.width DOMRect.height
       setPan setZoom init zoom pan Sample.point Point.x Point.y
       zoomInClick] in Hz, Hp.
  cbn [neg mul add sub] in Hz, Hp.
  pose proof (clampZoom_fin_within (1 + - d * 0.005 * 1)) as Hw.
  destruct (clampZoom (Fin (1 + - d * 0.005 * 1))) as [n | | |] eqn:En;
    try contradiction.
  assert (Hz' : n == 1.2) by exact Hz.
  assert (Hn0 : ~ 1 == 0) by (intros H'; discriminate H').
  assert (H2 : ~ 2 == 0) by (intros H'; discriminate H').
  rewrite !div_fin in Hp by assumption.
  cbn [neg mul add sub num_eq Math_min] in Hp.
  assert (E : n / 1 == n) by (field; exact Hn0).
  rewrite E, Hz' in Hp. vm_compute in Hp. discriminate Hp.
Qed.

(** C8, amended.  The zoom-in button sets the zoom to
    [Math.min(3, zoom + 0.2)], the zoom-out button to
    [Math.max(1, zoom - 0.2)], and neither touches the pan.  For a zoom
    within [[1, 3]] that is the zoom of a wheel step with the cursor at
    the centre of the container and a delta of [0.2 / zoom] in the
    button's direction, but not its pan: the wheel step gives the pan
    times [newZoom / zoom]. *)
Theorem zoom_buttons_step (s : State) (z l t w h : Q) :
  zoom s = Fin z ->
  1 <= z <= 3 ->
  let rect := {| DOMRect.left := Fin l; DOMRect.top := Fin t;
                 DOMRect.width := Fin w; DOMRect.height := Fin h |} in
  let centred (d : Q) :=
    {| WheelEvent.clientX := Fin (l + w / 2);
       WheelEvent.clientY := Fin (t + h / 2);
       WheelEvent.deltaY := Fin d |} in
  let wheelIn := handleWheel (Some rect) (centred (- (0.2 / z) / 0.005)) s in
  let wheelOut := handleWheel (Some rect) (centred (0.2 / z / 0.005)) s in
  (zoom (zoomInClick s) = Math_min (Fin 3) (zoom s + Fin 0.2)%js
   /\ pan (zoomInClick s) = pan s
   /\ zoom wheelIn =j= zoom (zoomInClick s)
   /\ Point.x (pan wheelIn) =j= (Point.x (pan s) * (zoom wheelIn / zoom s))%js
   /\ Point.y (pan wheelIn) =j= (Point.y (pan s) * (zoom wheelIn / zoom s))%js)
  /\ (zoom (zoomOutClick s) = Math_max (Fin 1) (zoom s - Fin 0.2)%js
      /\ pan (zoomOutClick s) = pan s
      /\ zoom wheelOut =j= zoom (zoomOutClick s)
      /\ Point.x (pan wheelOut)
           =j= (Point.x (pan s) * (zoom wheelOut / zoom s))%js
      /\ Point.y (pan wheelOut)
           =j= (Point.y (pan s) * (zoom wheelOut / zoom s))%js).
Proof.
  intros Hz Hr rect centred wheelIn wheelOut.
  assert (H2 : ~ 2 == 0) by (intros H'; discriminate H').
  assert (Hz0 : ~ z == 0) by lra.
  assert (Hpan : forall d,
    let s' := handleWheel (Some rect) (centred d) s in
    Point.x (pan s') =j= (Point.x (pan s) * (zoom s' / zoom s))%js
    /\ Point.y (pan s') =j= (Point.y (pan s) * (zoom s' / zoom s))%js).
  { intros d s'. subst s' rect centred. unfold handleWheel.
    event_fields.
    rewrite Hz. rewrite !div_fin by exact H2. cbn [neg mul add sub].
    pose proof (clampZoom_fin_within (z + - d * 0.005 * z)) as Hw.
    destruct (clampZoom (Fin (z + - d * 0.005 * z))) as [n | | |];
      try contradiction.
    rewrite div_fin by exact Hz0.
    cbn [setZoom setPan zoom pan Point.x Point.y neg mul add sub].
    rewrite div_fin by exact Hz0.
    split; (apply add_fin_zero; [ring | apply num_eq_refl]). }
  split.
  - split; [reflexivity|]. split; [reflexivity|].
    split; [| apply Hpan].
    subst wheelIn rect centred. unfold handleWheel, zoomInClick.
    cbn [WheelEvent.clientX WheelEvent.clientY WheelEvent.deltaY
         DOMRect.left DOMRect.top DOMRect.width DOMRect.height
         setZoom setPan zoom].
    rewrite Hz. cbn [neg mul add sub].
    assert (Ev : z + - (- (0.2 / z) / 0.005) * 0.005 * z == z + 0.2)
      by (field; exact Hz0).
    rewrite Math_min_3_fin.
    destruct (Qlt_le_dec (z + 0.2) 3) as [Hlt | Hge].
    + rewrite clampZoom_mid by (rewrite Ev; lra). exact Ev.
    + rewrite clampZoom_high by (rewrite Ev; lra). reflexivity.
  - split; [reflexivity|]. split; [reflexivity|].
    split; [| apply Hpan].
    subst wheelOut rect centred. unfold handleWheel, zoomOutClick.
    cbn [WheelEvent.clientX WheelEvent.clientY WheelEvent.deltaY
         DOMRect.left DOMRect.top DOMRect.width DOMRect.height
         setZoom setPan zoom].
    rewrite Hz. cbn [neg mul add sub].
    assert (Ev : z + - (0.2 / z / 0.005) * 0.005 * z == z + - (0.2))
      by (field; exact Hz0).
    rewrite Math_max_1_fin.
    destruct (Qlt_le_dec 1 (z + - (0.2))) as [Hlt | Hge].
    + rewrite clampZoom_mid by (rewrite Ev; lra). exact Ev.
    + rewrite clampZoom_low by (rewrite Ev; lra). reflexivity.
Qed.

Lemma zoom_buttons_step_witness :
  let s := setPan (Sample.point 10 0) init in
  let rect := Sample.rect 0 0 800 600 in
  let centred (d : Q) :=
    {| WheelEvent.clientX := Fin (0 + 800 / 2);
       WheelEvent.clientY := Fin (0 + 600 / 2);
       WheelEvent.deltaY := Fin d |} in
  let wheelIn := handleWheel (Some rect) (centred (- (0.2 / 1) / 0.005)) s in
  let wheelOut := handleWheel (Some rect) (centred (0.2 / 1 / 0.005)) s in
  (zoom (zoomInClick s) = Math_min (Fin 3) (zoom s + Fin 0.2)%js
   /\ pan (zoomInClick s) = pan s
   /\ zoom wheelIn =j= zoom (zoomInClick s)
   /\ Point.x (pan wheelIn) =j= (Point.x (pan s) * (zoom wheelIn / zoom s))%js
   /\ Point.y (pan wheelIn) =j= (Point.y (pan s) * (zoom wheelIn / zoom s))%js)
  /\ (zoom (zoomOutClick s) = Math_max (Fin 1) (zoom s - Fin 0.2)%js
      /\ pan (zoomOutClick s) = pan s
      /\ zoom wheelOut =j= zoom (zoomOutClick s)
      /\ Point.x (pan wheelOut)
           =j= (Point.x (pan s) * (zoom wheelOut / zoom s))%js
      /\ Point.y (pan wheelOut)
           =j= (Point.y (pan s) * (zoom wheelOut / zoom s))%js).
Proof.
  exact (zoom_buttons_step (setPan (Sample.point 10 0) init)
           1 0 0 800 600 eq_refl
           ltac:(split; unfold Qle; simpl; lia)).
Defined.

End Viewport.

(** ** The viewport: what the wheel step does to the picture *)

Section Anchor.

Import App.

(** The wheel step is the one the specification writes: the clamped
    multiplicative zoom and the pan
    [(cursor - c) * (1 - scaleFactor) + pan * scaleFactor]. *)
Lemma handleWheel_formula (rect : DOMRect.t) (e : WheelEvent.t) (s : State) :
  let s' := handleWheel (Some rect) e s in
  let delta := (- WheelEvent.deltaY e * Fin 0.005)%js in
  let scaleFactor := (zoom s' / zoom s)%js in
  let mouseX := (WheelEvent.clientX e - DOMRect.left rect)%js in
  let mouseY := (WheelEvent.clientY e - DOMRect.top rect)%js in
  let cx := (DOMRect.width rect / Fin 2)%js in
  let cy := (DOMRect.height rect / Fin 2)%js in
  zoom s' = clampZoom (zoom s + delta * zoom s)%js
  /\ Point.x (pan s') =
       ((mouseX - cx) * (Fin 1 - scaleFactor) + Point.x (pan s) * scaleFactor)%js
  /\ Point.y (pan s') =
       ((mouseY - cy) * (Fin 1 - scaleFactor) + Point.y (pan s) * scaleFactor)%js.
Proof. repeat split. Qed.

(** That pan keeps the content under the cursor where it is for a layer
    shown at [centre + pan + zoom * p], the transform list
    [translate(pan) scale(zoom)]. *)
Lemma handleWheel_keeps_anchor_when_translated_first
    (s : State) (z px py l t w h x y d qx qy : Q) :
  zoom s = Fin z -> 1 <= z <= 3 ->
  pan s = {| Point.x := Fin px; Point.y := Fin py |} ->
  let rect := {| DOMRect.left := Fin l; DOMRect.top := Fin t;
                 DOMRect.width := Fin w; DOMRect.height := Fin h |} in
  let e := {| WheelEvent.clientX := Fin x; WheelEvent.clientY := Fin y;
              WheelEvent.deltaY := Fin d |} in
  let s' := handleWheel (Some rect) e s in
  let layer (st : State) :=
    [Layer.translate (Point.x (pan st)) (Point.y (pan st));
     Layer.scale (zoom st)] in
  let q := {| Point.x := Fin qx; Point.y := Fin qy |} in
  let cursor := {| Point.x := Fin (x - l); Point.y := Fin (y - t) |} in
  Spec.point_eq (Layer.shown rect (layer s) q) cursor ->
  Spec.point_eq (Layer.shown rect (layer s') q) cursor.
Proof.
  intros Hz Hr Hp rect e s' layer q cursor. subst s' layer q cursor rect e.
  unfold handleWheel, Spec.point_eq, Layer.shown.
  cbn [WheelEvent.clientX WheelEvent.clientY WheelEvent.deltaY
       DOMRect.left DOMRect.top DOMRect.width DOMRect.height
       setZoom setPan zoom pan Point.x Point.y Layer.apply Layer.applyFunction].
  rewrite Hz, Hp.
  assert (H2 : ~ 2 == 0) by (intros H'; discriminate H').
  assert (Hz0 : ~ z == 0) by lra.
  rewrite !div_fin by exact H2. cbn [neg mul add sub Point.x Point.y].
  pose proof (clampZoom_fin_within (z + - d * 0.005 * z)) as Hw.
  destruct (clampZoom (Fin (z + - d * 0.005 * z))) as [n | | |];
    try contradiction.
  rewrite div_fin by exact Hz0. cbn [neg mul add sub num_eq].
  intros [Hx Hy]. split.
  - assert (Ex : x == w / 2 + (z * qx + px) + l) by lra.
    rewrite Ex. field. exact Hz0.
  - assert (Ey : y == h / 2 + (z * qy + py) + t) by lra.
    rewrite Ey. field. exact Hz0.
Qed.

(** C2.  The zoom and the pan of the wheel step are the ones the
    specification gives, but the layer is styled [scale(zoom) translate(pan)], which
    magnifies the pan as well, so the content under the cursor moves.
    From zoom 1 and pan (0, 0), a wheel step with the cursor 200 to the
    right of the centre of an 800 x 600 container doubles the zoom and
    sets the pan to (-200, 0); the wrapper point shown under the cursor
    before the step is shown at the centre of the container after it,
    200 away; and through a canvas that fills the container the mapper
    reads image point (750, 250) under the cursor before the step and
    (875, 250) after it. *)
Theorem wheel_zoom_moves_anchor :
  let s0 := init in
  let s1 := handleWheel (Some Sample.container)
              (Sample.wheel 600 300 (-200)) s0 in
  let p := Sample.point 200 0 in
  let canvasBox := Sample.rect (-400) (-300) 800 600 in
  let cursor := OfMouse (Sample.mouse 600 300) in
  zoom s1 =j= Fin 2
  /\ Spec.point_eq (pan s1) (Sample.point (-200) 0)
  /\ Spec.point_eq (Layer.shownAt Sample.container s0 p) (Sample.point 600 300)
  /\ Spec.point_eq (Layer.shownAt Sample.container s1 p) (Sample.point 400 300)
  /\ exists before after,
       CanvasEditor.getCoordinates Sample.loaded
         (Layer.boundingRect Sample.container s0 canvasBox) cursor true
       = Some before
       /\ CanvasEditor.getCoordinates Sample.loaded
            (Layer.boundingRect Sample.container s1 canvasBox) cursor true
          = Some after
       /\ Spec.point_eq before (Sample.point 750 250)
       /\ Spec.point_eq after (Sample.point 875 250).
Proof.
  cbv zeta.
  split; [reflexivity|]. split; [split; reflexivity|].
  split; [split; reflexivity|]. split; [split; reflexivity|].
  eexists. eexists.
  split; [vm_compute; reflexivity|]. split; [vm_compute; reflexivity|].
  split; split; reflexivity.
Qed.

End Anchor.

(** ** Gestures: drawing, panning and pinching together *)

Section Gestures.

Import Editor.

(** A touch move changes the zoom and the pan only. *)
Lemma onTouchMove_flags (container : option DOMRect.t) (e : TouchEvent.t)
    (a : App.State) :
  App.isPanning (App.onTouchMove container e a) = App.isPanning a
  /\ App.pinchStartRef (App.onTouchMove container e a) = App.pinchStartRef a.
Proof.
  unfold App.onTouchMove, App.pinchMove, App.handlePanMove.
  destruct (TouchEvent.touches e) as [| t1 [| t2 [| t3 rest]]];
    destruct (App.pinchStartRef a) eqn:Ea;
    destruct (App.isPanning a) eqn:Ep;
    destruct container;
    cbn [negb App.isPanning App.pinchStartRef App.setPan App.setZoom];
    rewrite ?Ea, ?Ep; split; reflexivity.
Qed.

(** Under touch input the container's two flags exclude each other. *)
Lemma handle_touch_pan_xor_pinch (container : option DOMRect.t)
    (ev : App.Event) (a : App.State) :
  Spec.isTouch ev = true ->
  (App.isPanning a = true -> App.pinchStartRef a = None) ->
  App.isPanning (App.handle container ev a) = true ->
  App.pinchStartRef (App.handle container ev a) = None.
Proof.
  intros Ht Hinv.
  destruct ev as [e | e | e | | | e | e | e | | | | dx dy];
    try discriminate Ht; cbn [App.handle].
  - unfold App.onTouchStart.
    destruct (TouchEvent.touches e) as [| t1 [| t2 [| t3 rest]]];
      try exact Hinv.
    + unfold App.handlePanStart. destruct container; intros _; reflexivity.
    + cbn [App.isPanning App.setPinchStartRef App.setIsPanning].
      intros H; discriminate H.
  - destruct (onTouchMove_flags container e a) as [Hp Hq].
    rewrite Hp, Hq. exact Hinv.
  - unfold App.onTouchEnd. cbv zeta.
    destruct (TouchEvent.touches e) as [| t1 [| t2 rest]].
    + cbn. intros H; discriminate H.
    + cbn [List.length Nat.ltb Nat.leb].
      unfold App.handlePanStart. destruct container; intros _; reflexivity.
    + destruct (_ <? _)%nat; cbn; intros H; discriminate H.
Qed.

Lemma run_touch_pan_xor_pinch (props : CanvasEditor.Props)
    (acts : list Action) :
  forall s : State,
    forallb Spec.touchOnly acts = true ->
    (panning s = true -> pinching s = false) ->
    panning (run props acts s) = true -> pinching (run props acts s) = false.
Proof.
  induction acts as [| a rest IH]; intros s Hall Hinv; [exact Hinv|].
  cbn [forallb] in Hall. apply andb_true_iff in Hall. destruct Hall as [Ha Hr].
  cbn [run]. apply IH; [exact Hr|].
  destruct a as [env ev | img |]; cbn [step dispatch]; try exact Hinv.
  unfold panning, pinching in *. cbn [app].
  intros Hp.
  assert (Hn : App.pinchStartRef (App.handle (container env) ev (app s)) = None).
  { apply handle_touch_pan_xor_pinch; [exact Ha | | exact Hp].
    intros H. specialize (Hinv H).
    destruct (App.pinchStartRef (app s)); [discriminate Hinv | reflexivity]. }
  unfold dispatch. cbn [app]. rewrite Hn. reflexivity.
Qed.

(** C7, as stated, fails.  One finger goes down on the photo: the canvas
    editor starts a stroke and the container starts a pan, so Drawing
    and Panning are both active.  A second finger goes down: the pinch
    anchor is captured and Drawing stays active.  The two fingers move:
    a segment is committed while two touches are down. *)
Lemma second_touch_keeps_drawing :
  let start := {| app := App.init; canvas := Sample.loaded |} in
  let down1 := Input Sample.env
                 (App.TouchStart (Sample.touches [Sample.touch 400 400])) in
  let down2 := Input Sample.env
                 (App.TouchStart
                    (Sample.touches [Sample.touch 400 400;
                                     Sample.touch 500 400])) in
  let move2 := Input Sample.env
                 (App.TouchMove
                    (Sample.touches [Sample.touch 400 300;
                                     Sample.touch 500 300])) in
  let s1 := run Sample.brush [down1] start in
  let s2 := run Sample.brush [down1; down2] start in
  let s3 := run Sample.brush [down1; down2; move2] start in
  (drawing s1 = true /\ panning s1 = true /\ exclusive s1 = false)
  /\ (drawing s2 = true /\ pinching s2 = true /\ exclusive s2 = false)
  /\ List.length (CanvasEditor.strokes (canvas s2)) = 0%nat
  /\ List.length (CanvasEditor.strokes (canvas s3)) = 1%nat
  /\ pinching s3 = true.
Proof. cbv zeta. repeat split. Qed.

(** C7, amended.  When a second touch appears while a stroke is being
    drawn, the container captures the pinch anchor and clears its
    panning flag, and the canvas editor keeps drawing: Pinching and
    Drawing are then both active, and every later move of two touches
    whose first touch maps inside the image commits one more segment,
    from the previous point to that touch, and leaves both active.
    Drawing is a flag of the
    canvas editor, set independently of the container's; under touch
    input only the container's own two, Panning and Pinching, are never
    active together. *)
Theorem second_touch_while_drawing
    (props : CanvasEditor.Props) (env : Env) (t1 t2 : Touch.t) (s : State) :
  drawing s = true ->
  let s' :=
    dispatch props env
      (App.TouchStart {| TouchEvent.touches := [t1; t2] |}) s in
  (pinching s' = true /\ panning s' = false /\ drawing s' = true)
  /\ (forall (r : State) (env' : Env) (u1 u2 : Touch.t)
             (last coords : Point.t),
        let move := {| TouchEvent.touches := [u1; u2] |} in
        drawing r = true -> pinching r = true ->
        CanvasEditor.lastPoint (canvas r) = Some last ->
        CanvasEditor.getCoordinates (canvas r) (canvasRect env')
          (OfTouch move) true = Some coords ->
        let r' := dispatch props env' (App.TouchMove move) r in
        CanvasEditor.strokes (canvas r') =
          CanvasEditor.strokes (canvas r) ++
            [CanvasEditor.Stroke last coords
               (CanvasEditor.brushColor props) (CanvasEditor.brushSize props)]
        /\ CanvasEditor.lastPoint (canvas r') = Some coords
        /\ drawing r' = true /\ pinching r' = true)
  /\ (forall acts : list Action,
        forallb Spec.touchOnly acts = true ->
        let r := run props acts init in
        panning r = true -> pinching r = false).
Proof.
  intros Hd s'.
  split; [| split].
  - split; [reflexivity|]. split; [reflexivity|].
    subst s'. unfold drawing in *. cbn [dispatch canvas onCanvas].
    unfold CanvasEditor.startDrawing.
    destruct (CanvasEditor.getCoordinates _ _ _ _); [reflexivity | exact Hd].
  - intros r env' u1 u2 last coords move Hdr Hpr Hlast Hsome r'.
    unfold drawing in Hdr.
    assert (Hcanvas : canvas r' =
      {| CanvasEditor.mainCanvasRef :=
           CanvasEditor.strokeOn props last coords
             (CanvasEditor.mainCanvasRef (canvas r));
         CanvasEditor.isDrawing := CanvasEditor.isDrawing (canvas r);
         CanvasEditor.image := CanvasEditor.image (canvas r);
         CanvasEditor.lastPoint := Some coords |}).
    { subst r'. cbn [dispatch canvas onCanvas]. unfold CanvasEditor.draw.
      rewrite Hdr. cbn [negb]. fold move. rewrite Hsome, Hlast. reflexivity. }
    split; [| split; [| split]].
    + rewrite Hcanvas.
      destruct (getCoordinates_some_canvas _ _ _ _ _ Hsome) as [c Hc].
      apply strokes_strokeOn with (c := c). exact Hc.
    + rewrite Hcanvas. reflexivity.
    + unfold drawing. rewrite Hcanvas. exact Hdr.
    + subst r'. unfold pinching in *. unfold dispatch. cbn [app App.handle].
      destruct (onTouchMove_flags (container env') move (app r)) as [_ Hq].
      rewrite Hq. exact Hpr.
  - intros acts Hall r. subst r.
    apply run_touch_pan_xor_pinch; [exact Hall|].
    intros H. discriminate H.
Qed.

Lemma second_touch_while_drawing_witness :
  let props := Sample.brush in
  let s := run props
             [Input Sample.env
                (App.TouchStart (Sample.touches [Sample.touch 400 400]))]
             {| app := App.init; canvas := Sample.loaded |} in
  let s' :=
    dispatch props Sample.env
      (App.TouchStart
         {| TouchEvent.touches := [Sample.touch 400 400;
                                   Sample.touch 500 400] |}) s in
  (pinching s' = true /\ panning s' = false /\ drawing s' = true)
  /\ (forall (r : State) (env' : Env) (u1 u2 : Touch.t)
             (last coords : Point.t),
        let move := {| TouchEvent.touches := [u1; u2] |} in
        drawing r = true -> pinching r = true ->
        CanvasEditor.lastPoint (canvas r) = Some last ->
        CanvasEditor.getCoordinates (canvas r) (canvasRect env')
          (OfTouch move) true = Some coords ->
        let r' := dispatch props env' (App.TouchMove move) r in
        CanvasEditor.strokes (canvas r') =
          CanvasEditor.strokes (canvas r) ++
            [CanvasEditor.Stroke last coords
               (CanvasEditor.brushColor props) (CanvasEditor.brushSize props)]
        /\ CanvasEditor.lastPoint (canvas r') = Some coords
        /\ drawing r' = true /\ pinching r' = true)
  /\ (forall acts : list Action,
        forallb Spec.touchOnly acts = true ->
        let r := run props acts init in
        panning r = true -> pinching r = false).
Proof.
  exact (second_touch_while_drawing Sample.brush Sample.env
           (Sample.touch 400 400) (Sample.touch 500 400)
           (run Sample.brush
              [Input Sample.env
                 (App.TouchStart (Sample.touches [Sample.touch 400 400]))]
              {| app := App.init; canvas := Sample.loaded |})
           eq_refl).
Defined.

End Gestures.

(* ================================================================= *)
(** * More properties of the viewport *)

Section ViewportMore.

Import App.

(** X1.  From any state whose zoom is within [[1, 3]] and in which no
    pinch is in progress, the zoom is within [[1, 3]] after every event of
    a well-formed sequence (finite wheel deltas and touch coordinates, the
    two touches that start a pinch at different places), whatever mix of
    wheel, mouse, touch, button, reset and pan-pad events it is. *)
Theorem zoom_in_range_from_any_state
    (container : option DOMRect.t) (evs : list Event) (s : State) :
  within 1 3 (zoom s) ->
  pinchStartRef s = None ->
  Forall Spec.wellFormed evs ->
  Forall (fun s' => within 1 3 (zoom s')) (trace container evs s).
Proof.
  intros Hz Hp Hwf.
  apply Forall_impl with (P := Spec.zoomInv); [intros s' [H _]; exact H|].
  apply trace_zoomInv; [exact Hwf|].
  split; [exact Hz|]. intros a Ha. rewrite Hp in Ha. discriminate Ha.
Qed.

Lemma zoom_in_range_from_any_state_witness :
  Forall (fun s' => within 1 3 (zoom s'))
    (trace (Some Sample.container)
       [Wheel (Sample.wheel 600 300 (-200));
        ZoomInClick;
        TouchStart (Sample.touches [Sample.touch 100 200; Sample.touch 200 200]);
        TouchMove (Sample.touches [Sample.touch 50 200; Sample.touch 250 200]);
        ZoomOutClick]
       (setZoom (Fin 2.5) init)).
Proof.
  apply (zoom_in_range_from_any_state (Some Sample.container) _
           (setZoom (Fin 2.5) init)).
  - split; discriminate.
  - reflexivity.
  - repeat constructor; intros [H _]; discriminate H.
Defined.

(** The moves of a drag keep the anchor and the flag. *)
Lemma handlePanMove_keeps_anchor (x y : number) (s : State) :
  isPanning (handlePanMove x y s) = isPanning s
  /\ panStartRef (handlePanMove x y s) = panStartRef s
  /\ zoom (handlePanMove x y s) = zoom s.
Proof.
  unfold handlePanMove. destruct (negb (isPanning s)); repeat split.
Qed.

Lemma run_moves_keeps_anchor (container : option DOMRect.t)
    (ms : list MouseEvent.t) :
  forall s : State,
    let s' := run container (map MouseMove ms) s in
    isPanning s' = isPanning s
    /\ panStartRef s' = panStartRef s
    /\ zoom s' = zoom s.
Proof.
  induction ms as [| m rest IH]; intros s; cbn [map run handle].
  - repeat split.
  - destruct (IH (onMouseMove m s)) as [H1 [H2 H3]].
    destruct (handlePanMove_keeps_anchor (MouseEvent.clientX m)
                (MouseEvent.clientY m) s) as [K1 [K2 K3]].
    unfold onMouseMove in *. cbv zeta.
    rewrite H1, H2, H3, K1, K2, K3. repeat split.
Qed.

(** X2.  A drag follows the pointer, not its path: after a press of the
    primary button at [(x0, y0)] on a mounted container and any number of
    mouse moves, the pan is the pan at the press plus the displacement of
    the last move from [(x0, y0)], and the zoom is untouched. *)
Theorem drag_pan_is_start_plus_displacement
    (rect : DOMRect.t) (down last : MouseEvent.t) (ms : list MouseEvent.t)
    (s : State) :
  MouseEvent.button down = 0%nat ->
  let s' := run (Some rect)
              (MouseDown down :: map MouseMove ms ++ [MouseMove last]) s in
  pan s' =
    {| Point.x := (Point.x (pan s)
                   + (MouseEvent.clientX last - MouseEvent.clientX down))%js;
       Point.y := (Point.y (pan s)
                   + (MouseEvent.clientY last - MouseEvent.clientY down))%js |}
  /\ zoom s' = zoom s
  /\ isPanning s' = true.
Proof.
  intros Hb s'. subst s'.
  cbn [run handle]. unfold onMouseDown. rewrite Hb. cbn [Nat.eqb negb].
  set (s0 := handlePanStart (Some rect) (MouseEvent.clientX down)
               (MouseEvent.clientY down) s).
  assert (Hrun : forall l1 l2 st,
            run (Some rect) (l1 ++ l2) st
            = run (Some rect) l2 (run (Some rect) l1 st)).
  { induction l1 as [| e l1 IH]; intros l2 st; [reflexivity|].
    cbn [app run]. apply IH. }
  rewrite Hrun. cbn [run handle].
  destruct (run_moves_keeps_anchor (Some rect) ms s0) as [H1 [H2 H3]].
  cbv zeta in H1, H2, H3.
  set (s1 := run (Some rect) (map MouseMove ms) s0) in *.
  unfold onMouseMove, handlePanMove. rewrite H1.
  change (isPanning s0) with true. cbn [negb].
  cbn [pan zoom isPanning setPan]. rewrite H2, H3.
  repeat split. exact H1.
Qed.

Lemma drag_pan_is_start_plus_displacement_witness :
  let s' := run (Some Sample.container)
              (MouseDown (Sample.mouse 100 100)
               :: map MouseMove [Sample.mouse 300 50; Sample.mouse 20 400]
               ++ [MouseMove (Sample.mouse 130 90)])
              (setPan (Sample.point 7 9) init) in
  pan s' =
    {| Point.x := (Fin 7 + (Fin 130 - Fin 100))%js;
       Point.y := (Fin 9 + (Fin 90 - Fin 100))%js |}
  /\ zoom s' = Fin 1
  /\ isPanning s' = true.
Proof.
  exact (drag_pan_is_start_plus_displacement Sample.container
           (Sample.mouse 100 100) (Sample.mouse 130 90)
           [Sample.mouse 300 50; Sample.mouse 20 400]
           (setPan (Sample.point 7 9) init) eq_refl).
Defined.

(** X3.  While a drag is in progress, what the wheel, the zoom and reset
    buttons and the pan pad do to the pan does not last: the next mouse
    move sets the pan from the drag's anchor, as if the command had not
    happened, while the zoom the command set stays. *)
Theorem drag_discards_pan_of_commands
    (container : option DOMRect.t) (ev : Event) (e : MouseEvent.t)
    (s : State) :
  isPanning s = true ->
  Conditions.viewportCommand ev = true ->
  pan (onMouseMove e (handle container ev s)) = pan (onMouseMove e s)
  /\ zoom (onMouseMove e (handle container ev s))
     = zoom (handle container ev s).
Proof.
  intros Hp Hc.
  assert (Hkeep : isPanning (handle container ev s) = isPanning s
                  /\ panStartRef (handle container ev s) = panStartRef s).
  { destruct ev; try discriminate Hc; cbn [handle];
      try (split; reflexivity).
    unfold handleWheel. destruct container; split; reflexivity. }
  destruct Hkeep as [H1 H2].
  unfold onMouseMove, handlePanMove. rewrite H1, Hp. cbn [negb].
  cbn [pan zoom setPan]. rewrite H2. split; reflexivity.
Qed.

Lemma drag_discards_pan_of_commands_witness :
  let s := handlePanStart (Some Sample.container) (Fin 100) (Fin 100) init in
  let ev := Wheel (Sample.wheel 600 300 (-200)) in
  pan (onMouseMove (Sample.mouse 110 100) (handle (Some Sample.container) ev s))
  = pan (onMouseMove (Sample.mouse 110 100) s)
  /\ zoom (onMouseMove (Sample.mouse 110 100)
             (handle (Some Sample.container) ev s))
     = zoom (handle (Some Sample.container) ev s).
Proof.
  exact (drag_discards_pan_of_commands (Some Sample.container)
           (Wheel (Sample.wheel 600 300 (-200))) (Sample.mouse 110 100)
           (handlePanStart (Some Sample.container) (Fin 100) (Fin 100) init)
           eq_refl eq_refl).
Defined.

(** X4.  When one of two fingers lifts, the pinch ends and a pan starts
    at the finger that stays, anchored at the pan the pinch left: the zoom
    and the pan do not jump, and the next move of that finger shifts the
    pan by its displacement since the lift. *)
Theorem pinch_hands_over_to_pan
    (rect : DOMRect.t) (container' : option DOMRect.t)
    (stays moved : Touch.t) (s : State) :
  let s1 := onTouchEnd (Some rect) {| TouchEvent.touches := [stays] |} s in
  let s2 := onTouchMove container' {| TouchEvent.touches := [moved] |} s1 in
  (pinchStartRef s1 = None /\ isPanning s1 = true
   /\ pan s1 = pan s /\ zoom s1 = zoom s)
  /\ pan s2 =
       {| Point.x := (Point.x (pan s)
                      + (Touch.clientX moved - Touch.clientX stays))%js;
          Point.y := (Point.y (pan s)
                      + (Touch.clientY moved - Touch.clientY stays))%js |}
  /\ zoom s2 = zoom s.
Proof.
  intros s1 s2.
  assert (E1 : s1 =
    {| zoom := zoom s; pan := pan s; isPanning := true;
       panStartRef := {| PanStart.startX := Touch.clientX stays;
                         PanStart.startY := Touch.clientY stays;
                         PanStart.startPan := pan s |};
       pinchStartRef := None |}).
  { subst s1. unfold onTouchEnd, handlePanEnd, handlePanStart.
    cbn [TouchEvent.touches List.length Nat.ltb Nat.leb].
    reflexivity. }
  split; [rewrite E1; repeat split|].
  subst s2. rewrite E1. unfold onTouchMove, handlePanMove.
  cbn [TouchEvent.touches pinchStartRef isPanning negb panStartRef
       PanStart.startX PanStart.startY PanStart.startPan setPan pan zoom].
  split; reflexivity.
Qed.

Lemma inject_succ (n : nat) :
  inject_Z (Z.of_nat (S n)) == inject_Z (Z.of_nat n) + 1.
Proof.
  rewrite Nat2Z.inj_succ. unfold Z.succ. rewrite inject_Z_plus. reflexivity.
Qed.

Lemma zoom_zoomInClick (s : State) :
  zoom (zoomInClick s) = Math_min (Fin 3) (zoom s + Fin 0.2)%js.
Proof. reflexivity. Qed.

Lemma pan_zoomInClick (s : State) : pan (zoomInClick s) = pan s.
Proof. reflexivity. Qed.

Lemma zoom_zoomOutClick (s : State) :
  zoom (zoomOutClick s) = Math_max (Fin 1) (zoom s - Fin 0.2)%js.
Proof. reflexivity. Qed.

Lemma pan_zoomOutClick (s : State) : pan (zoomOutClick s) = pan s.
Proof. reflexivity. Qed.

Lemma iter_zoomIn (s : State) (z : Q) (n : nat) :
  zoom s = Fin z -> z <= 3 ->
  pan (Nat.iter n zoomInClick s) = pan s
  /\ exists q, zoom (Nat.iter n zoomInClick s) = Fin q
               /\ q == Qmin 3 (z + 0.2 * inject_Z (Z.of_nat n)).
Proof.
  intros Hz Hr. induction n as [| n [IHp [q [Eq Hq]]]].
  - split; [reflexivity|]. exists z. split; [exact Hz|].
    cbn [Nat.iter Z.of_nat].
    destruct (Q.min_spec 3 (z + 0.2 * inject_Z 0)) as [[H E] | [H E]];
      rewrite E; unfold inject_Z in *; lra.
  - rewrite Nat.iter_succ, pan_zoomInClick, zoom_zoomInClick.
    split; [exact IHp|].
    rewrite Eq. cbn [add]. rewrite Math_min_3_fin.
    pose proof (inject_succ n) as Hs.
    set (k := inject_Z (Z.of_nat n)) in *.
    set (k' := inject_Z (Z.of_nat (S n))) in *.
    destruct (Q.min_spec 3 (z + 0.2 * k)) as [[H E] | [H E]];
      rewrite E in Hq;
      destruct (Q.min_spec 3 (z + 0.2 * k')) as [[H' E'] | [H' E']];
      destruct (Qlt_le_dec (q + 0.2) 3);
      eexists; (split; [reflexivity|]); rewrite E'; lra.
Qed.

Lemma iter_zoomOut (s : State) (z : Q) (n : nat) :
  zoom s = Fin z -> 1 <= z ->
  pan (Nat.iter n zoomOutClick s) = pan s
  /\ exists q, zoom (Nat.iter n zoomOutClick s) = Fin q
               /\ q == Qmax 1 (z - 0.2 * inject_Z (Z.of_nat n)).
Proof.
  intros Hz Hr. induction n as [| n [IHp [q [Eq Hq]]]].
  - split; [reflexivity|]. exists z. split; [exact Hz|].
    cbn [Nat.iter Z.of_nat].
    destruct (Q.max_spec 1 (z - 0.2 * inject_Z 0)) as [[H E] | [H E]];
      rewrite E; unfold inject_Z in *; lra.
  - rewrite Nat.iter_succ, pan_zoomOutClick, zoom_zoomOutClick.
    split; [exact IHp|].
    rewrite Eq. cbn [sub add neg]. rewrite Math_max_1_fin.
    pose proof (inject_succ n) as Hs.
    set (k := inject_Z (Z.of_nat n)) in *.
    set (k' := inject_Z (Z.of_nat (S n))) in *.
    destruct (Q.max_spec 1 (z - 0.2 * k)) as [[H E] | [H E]];
      rewrite E in Hq;
      destruct (Q.max_spec 1 (z - 0.2 * k')) as [[H' E'] | [H' E']];
      destruct (Qlt_le_dec 1 (q + - (0.2)));
      eexists; (split; [reflexivity|]); rewrite E'; lra.
Qed.



End ViewportMore.

(** ** The pan pad *)

Section PanPad.

Import Pad.

Lemma run_app (l1 l2 : list Event) (s : State) :
  run (l1 ++ l2) s = run l2 (run l1 s).
Proof.
  revert s. induction l1 as [| e l1 IH]; intros s; [reflexivity|].
  cbn [List.app run]. apply IH.
Qed.

(** [n] frames with the direction [(dx, dy)] held. *)
Lemma frames_held (dx dy : Q) (n : nat) :
  forall (a : App.State) (px py : Q),
    App.pan a = {| Point.x := Fin px; Point.y := Fin py |} ->
    let s := {| app := a;
                pad := {| PanControl.panDirectionRef :=
                            {| Point.x := Fin dx; Point.y := Fin dy |} |} |} in
    let s' := run (repeat Frame n) s in
    pad s' = pad s
    /\ App.zoom (app s') = App.zoom a
    /\ exists qx qy,
         App.pan (app s') = {| Point.x := Fin qx; Point.y := Fin qy |}
         /\ qx == px + inject_Z (Z.of_nat n) * (dx * 5)
         /\ qy == py + inject_Z (Z.of_nat n) * (dy * 5).
Proof.
  induction n as [| n IH]; intros a px py Hp s s'; subst s s'.
  - cbn [repeat run pad app]. split; [reflexivity|]. split; [reflexivity|].
    exists px, py. split; [exact Hp|]. cbn [Z.of_nat]. unfold inject_Z.
    split; ring.
  - cbn [repeat run step pad app].
    pose proof (inject_succ n) as Hs.
    unfold PanControl.panLoop. cbn [PanControl.panDirectionRef Point.x Point.y].
    destruct (negb (NumOps.strictEq (Fin dx) (Fin 0))
              || negb (NumOps.strictEq (Fin dy) (Fin 0))) eqn:Hdir.
    + unfold App.handlePanByControl. rewrite Hp. cbn [Point.x Point.y mul add].
      unfold panSpeed.
      edestruct (IH (App.setPan {| Point.x := Fin (px + dx * 5);
                                   Point.y := Fin (py + dy * 5) |} a)
                    (px + dx * 5) (py + dy * 5) eq_refl)
        as [H1 [H2 [qx [qy [H3 [H4 H5]]]]]].
      cbv zeta in H1, H2, H3. cbn [mul] in *.
      split; [exact H1|]. split; [exact H2|].
      exists qx, qy. split; [exact H3|].
      split; [rewrite H4, Hs; ring | rewrite H5, Hs; ring].
    + apply orb_false_iff in Hdir. destruct Hdir as [Hx Hy].
      apply negb_false_iff in Hx. apply negb_false_iff in Hy.
      cbn [NumOps.strictEq] in Hx, Hy.
      apply Qeq_bool_iff in Hx. apply Qeq_bool_iff in Hy.
      edestruct (IH a px py Hp) as [H1 [H2 [qx [qy [H3 [H4 H5]]]]]].
      cbv zeta in H1, H2, H3.
      split; [exact H1|]. split; [exact H2|].
      exists qx, qy. split; [exact H3|].
      split; [rewrite H4, Hs, Hx; ring | rewrite H5, Hs, Hy; ring].
Qed.

(** Frames with no direction held change nothing. *)
Lemma frames_idle (n : nat) (a : App.State) :
  run (repeat Frame n) {| app := a; pad := PanControl.mount |}
  = {| app := a; pad := PanControl.mount |}.
Proof.
  induction n as [| n IH]; [reflexivity|].
  cbn [repeat run step pad app]. exact IH.
Qed.



End PanPad.

(* ================================================================= *)
(** * More properties of the canvas editor *)

Section CanvasMore.

Import CanvasEditor.

(** The mapper reads the state only for the presence of the canvas and
    for the image. *)
Lemma getCoordinates_same (st st' : State) (rect : DOMRect.t)
    (ev : PointerInput) (clamp : bool) :
  image st' = image st ->
  (mainCanvasRef st' = None <-> mainCanvasRef st = None) ->
  getCoordinates st' rect ev clamp = getCoordinates st rect ev clamp.
Proof.
  intros Hi Hc. unfold getCoordinates. rewrite Hi.
  destruct (mainCanvasRef st) as [c |], (mainCanvasRef st') as [c' |];
    try reflexivity.
  - destruct Hc as [Hc _]. discriminate (Hc eq_refl).
  - destruct Hc as [_ Hc]. discriminate (Hc eq_refl).
Qed.

(** A clamped result lies on the image. *)
Lemma getCoordinates_inImage (st : State) (img : Image.t) (rect : DOMRect.t)
    (ev : PointerInput) (p : Point.t) :
  image st = Some img ->
  Conditions.goodImage img -> Conditions.goodRect rect ->
  Conditions.finitePointer ev ->
  getCoordinates st rect ev true = Some p ->
  Conditions.inImage img p.
Proof.
  intros Hi [nw [nh [Eimg [Hnw Hnh]]]] [l [t [cw [ch [Erect [Hcw Hch]]]]]] Hfin.
  subst img rect. unfold Conditions.inImage.
  cbn [Image.naturalWidth Image.naturalHeight].
  unfold getCoordinates. rewrite Hi.
  destruct (mainCanvasRef st) as [c |]; [| discriminate].
  unfold Conditions.finitePointer in Hfin.
  destruct (clientPoint ev) as [[cx cy] |]; [| discriminate].
  destruct Hfin as [Hx Hy].
  destruct cx as [cx | | |], cy as [cy | | |]; try contradiction.
  cbn [Image.naturalWidth Image.naturalHeight DOMRect.left DOMRect.top
       DOMRect.width DOMRect.height andb].
  assert (Har : 0 < nw / nh) by (apply Qlt_shift_div_l; lra).
  destruct (Qlt_le_dec (cw / ch) (nw / nh)) as [Hw | Ht].
  - rewrite containFit_wide by assumption. cbn [sub add neg].
    match goal with
    | |- context [outside ?R ?X ?Y] => destruct (outside R X Y) eqn:Ho
    end; [discriminate|].
    apply outside_fin_false in Ho. destruct Ho as [Hox Hoy].
    cbn [offsetX offsetY renderedWidth renderedHeight sub add neg].
    rewrite div_fin by lra. cbn [mul].
    intros E; inversion E; subst p; clear E. cbn [Point.x Point.y within].
    split; [apply scale_bound; lra|].
    assert (E : cw / (nw / nh) * (nw / cw) == nh) by (field; lra).
    assert (Hs : 0 <= nw / cw) by (apply Qle_shift_div_l; lra).
    split; nra.
  - rewrite containFit_tall by assumption. cbn [sub add neg].
    match goal with
    | |- context [outside ?R ?X ?Y] => destruct (outside R X Y) eqn:Ho
    end; [discriminate|].
    apply outside_fin_false in Ho. destruct Ho as [Hox Hoy].
    cbn [offsetX offsetY renderedWidth renderedHeight sub add neg].
    assert (Hrw : 0 < ch * (nw / nh)) by nra.
    rewrite div_fin by lra. cbn [mul].
    intros E; inversion E; subst p; clear E. cbn [Point.x Point.y within].
    split; [apply scale_bound; lra|].
    assert (E : ch * (nw / (ch * (nw / nh))) == nh) by (field; lra).
    assert (Hs : 0 <= nw / (ch * (nw / nh))) by (apply Qle_shift_div_l; lra).
    split; nra.
Qed.

(** What holds of the canvas editor as long as the photo [img] is the
    one bound: every stroke painted and the previous point lie on it. *)
Lemma inside_step (props : Props) (img : Image.t) (a : Editor.Action)
    (s : Editor.State) :
  Conditions.goodImage img ->
  Conditions.goodAction a ->
  (image (Editor.canvas s) = Some img
   /\ (exists cv, mainCanvasRef (Editor.canvas s) = Some cv
                  /\ Forall (Conditions.strokeInside img) (bitmap cv))
   /\ forall l, lastPoint (Editor.canvas s) = Some l ->
                Conditions.inImage img l) ->
  let s' := Editor.step props a s in
  image (Editor.canvas s') = Some img
  /\ (exists cv, mainCanvasRef (Editor.canvas s') = Some cv
                 /\ Forall (Conditions.strokeInside img) (bitmap cv))
  /\ forall l, lastPoint (Editor.canvas s') = Some l ->
               Conditions.inImage img l.
Proof.
  intros Himg Ha [Hi [[cv [Hc Hb]] Hl]] s'. subst s'.
  set (c := Editor.canvas s) in *.
  assert (Hstart : forall rect ev,
    Conditions.goodRect rect -> Conditions.finitePointer ev ->
    let c' := startDrawing c rect ev in
    image c' = Some img
    /\ (exists cv', mainCanvasRef c' = Some cv'
                    /\ Forall (Conditions.strokeInside img) (bitmap cv'))
    /\ forall l, lastPoint c' = Some l -> Conditions.inImage img l).
  { intros rect ev Hr Hf c'. subst c'. unfold startDrawing.
    destruct (getCoordinates c rect ev true) as [p |] eqn:Hg.
    - cbn [image mainCanvasRef lastPoint].
      split; [exact Hi|]. split; [exists cv; split; assumption|].
      intros l E. inversion E; subst l.
      apply (getCoordinates_inImage c img rect ev); assumption.
    - split; [exact Hi|]. split; [exists cv; split; assumption | exact Hl]. }
  assert (Hdraw : forall rect ev,
    Conditions.goodRect rect -> Conditions.finitePointer ev ->
    let c' := draw props c rect ev in
    image c' = Some img
    /\ (exists cv', mainCanvasRef c' = Some cv'
                    /\ Forall (Conditions.strokeInside img) (bitmap cv'))
    /\ forall l, lastPoint c' = Some l -> Conditions.inImage img l).
  { intros rect ev Hr Hf c'. subst c'. unfold draw.
    destruct (negb (isDrawing c));
      [split; [exact Hi|]; split; [exists cv; split; assumption | exact Hl]|].
    destruct (getCoordinates c rect ev true) as [p |] eqn:Hg;
      [| split; [exact Hi|]; split; [exists cv; split; assumption | exact Hl]].
    destruct (lastPoint c) as [last |] eqn:Hlast;
      [| split; [exact Hi|]; split; [exists cv; split; assumption|];
         intros l E; rewrite Hlast in E; discriminate E].
    assert (Hp : Conditions.inImage img p)
      by (apply (getCoordinates_inImage c img rect ev); assumption).
    cbn [image mainCanvasRef lastPoint]. rewrite Hc. cbn [strokeOn].
    split; [exact Hi|]. split.
    - eexists. split; [reflexivity|]. cbn [bitmap].
      apply Forall_app. split; [exact Hb|].
      constructor; [| constructor].
      cbn [Conditions.strokeInside]. split; [apply Hl; reflexivity | exact Hp].
    - intros l E. inversion E; subst l. exact Hp. }
  assert (Hstop :
    let c' := stopDrawing c in
    image c' = Some img
    /\ (exists cv', mainCanvasRef c' = Some cv'
                    /\ Forall (Conditions.strokeInside img) (bitmap cv'))
    /\ forall l, lastPoint c' = Some l -> Conditions.inImage img l).
  { cbv zeta. cbn [stopDrawing image mainCanvasRef lastPoint].
    split; [exact Hi|]. split; [exists cv; split; assumption|].
    intros l E. discriminate E. }
  destruct a as [env ev | img' |]; cbn [Conditions.goodAction] in Ha.
  - destruct Ha as [Hr Hf].
    cbn [Editor.step Editor.dispatch Editor.canvas]. fold c.
    destruct ev; cbn [Editor.onCanvas Conditions.pointerOf] in *;
      try (apply Hstart; assumption);
      try (apply Hdraw; assumption);
      try exact Hstop;
      (split; [exact Hi|]; split; [exists cv; split; assumption | exact Hl]).
  - contradiction.
  - cbn [Editor.step Editor.canvas]. fold c. unfold resetCanvas.
    rewrite Hc, Hi. cbn [image mainCanvasRef lastPoint].
    split; [reflexivity|]. split; [| exact Hl].
    eexists. split; [reflexivity|]. cbn [bitmap].
    apply Forall_app. split; [exact Hb|].
    repeat constructor.
Qed.



Lemma previous_point_step (props : Props) (a : Editor.Action)
    (s : Editor.State) :
  (isDrawing (Editor.canvas s) = true <-> lastPoint (Editor.canvas s) <> None) ->
  (isDrawing (Editor.canvas (Editor.step props a s)) = true
   <-> lastPoint (Editor.canvas (Editor.step props a s)) <> None).
Proof.
  intros Hinv. set (c := Editor.canvas s) in *.
  assert (Hstart : forall rect ev,
    isDrawing (startDrawing c rect ev) = true
    <-> lastPoint (startDrawing c rect ev) <> None).
  { intros rect ev. unfold startDrawing.
    destruct (getCoordinates c rect ev true); [| exact Hinv].
    cbn [isDrawing lastPoint]. split; [discriminate | reflexivity]. }
  assert (Hdraw : forall rect ev,
    isDrawing (draw props c rect ev) = true
    <-> lastPoint (draw props c rect ev) <> None).
  { intros rect ev. unfold draw.
    destruct (negb (isDrawing c)) eqn:Hn; [exact Hinv|].
    apply negb_false_iff in Hn.
    destruct (getCoordinates c rect ev true); [| exact Hinv].
    destruct (lastPoint c) eqn:Hl; [| rewrite Hl; exact Hinv].
    cbn [isDrawing lastPoint]. split; [discriminate | intros _; exact Hn]. }
  assert (Hstop : isDrawing (stopDrawing c) = true
                  <-> lastPoint (stopDrawing c) <> None).
  { cbn [stopDrawing isDrawing lastPoint].
    split; [discriminate | intros H; contradiction H; reflexivity]. }
  destruct a as [env ev | img |].
  - cbn [Editor.step Editor.dispatch Editor.canvas]. fold c.
    destruct ev; cbn [Editor.onCanvas];
      first [apply Hstart | apply Hdraw | exact Hstop | exact Hinv].
  - cbn [Editor.step Editor.canvas onload isDrawing lastPoint]. exact Hinv.
  - cbn [Editor.step Editor.canvas]. fold c. unfold resetCanvas.
    destruct (mainCanvasRef c); [| exact Hinv].
    destruct (image c); [| exact Hinv].
    cbn [isDrawing lastPoint]. exact Hinv.
Qed.

(** X8.  The previous point is recorded exactly while a stroke is in
    progress: in every state the editor reaches from its first render, by
    any gestures, photo loads and clear requests, [isDrawing] is set if
    and only if [lastPoint] holds a point.  (So the test of
    [lastPoint.current] in [draw] never decides anything.) *)
Theorem previous_point_iff_drawing
    (props : Props) (acts : list Editor.Action) :
  let c := Editor.canvas (Editor.run props acts Editor.init) in
  isDrawing c = true <-> lastPoint c <> None.
Proof.
  cbv zeta.
  assert (Hgen : forall s,
    (isDrawing (Editor.canvas s) = true <-> lastPoint (Editor.canvas s) <> None) ->
    (isDrawing (Editor.canvas (Editor.run props acts s)) = true
     <-> lastPoint (Editor.canvas (Editor.run props acts s)) <> None)).
  { induction acts as [| a rest IH]; intros s Hinv; [exact Hinv|].
    cbn [Editor.run]. apply IH. apply previous_point_step. exact Hinv. }
  apply Hgen. cbn [Editor.init Editor.canvas mounted isDrawing lastPoint].
  split; [discriminate | intros H; contradiction H; reflexivity].
Qed.

Lemma draw_keeps_mapper (props : Props) (st : State) (rect : DOMRect.t)
    (ev : PointerInput) :
  image (draw props st rect ev) = image st
  /\ (mainCanvasRef (draw props st rect ev) = None <-> mainCanvasRef st = None).
Proof.
  unfold draw. destruct (negb (isDrawing st)); [tauto|].
  destruct (getCoordinates st rect ev true); [| tauto].
  destruct (lastPoint st); [| tauto].
  cbn [image mainCanvasRef]. split; [reflexivity|].
  destruct (mainCanvasRef st); cbn [strokeOn]; split; intros H;
    first [discriminate H | reflexivity].
Qed.

Lemma last_cons_default {A : Type} (l : list A) :
  forall a d : A, last (a :: l) d = last l a.
Proof.
  induction l as [| b l IH]; intros a d; [reflexivity|].
  change (last (a :: b :: l) d) with (last (b :: l) d).
  rewrite (IH b d), (IH b a). reflexivity.
Qed.

(** X9.  The segments of a stroke join up.  While drawing, a run of moves
    that all map inside the image paints the polyline from the previous
    point through the mapped points, one segment per move and in order,
    each with the current brush; the previous point ends at the last
    mapped point. *)
Theorem moves_paint_a_polyline
    (props : Props) (inputs : list (DOMRect.t * PointerInput))
    (ps : list Point.t) :
  forall (st : State) (p0 : Point.t),
    isDrawing st = true ->
    lastPoint st = Some p0 ->
    Forall2 (fun i q => getCoordinates st (fst i) (snd i) true = Some q)
            inputs ps ->
    let st' := Conditions.drawAll props inputs st in
    strokes st' = strokes st ++ Conditions.polyline props p0 ps
    /\ lastPoint st' = Some (last ps p0)
    /\ isDrawing st' = true.
Proof.
  revert ps. induction inputs as [| i rest IH]; intros ps st p0 Hd Hl Hall st';
    subst st'; inversion Hall as [| ? q ? qs Hq Hrest]; subst.
  - cbn [Conditions.drawAll fold_left Conditions.polyline last].
    rewrite app_nil_r. repeat split; assumption.
  - cbn [Conditions.drawAll fold_left].
    set (st1 := draw props st (fst i) (snd i)).
    destruct (draw_keeps_mapper props st (fst i) (snd i)) as [Ki Kc].
    fold st1 in Ki, Kc.
    assert (E1 : st1 =
      {| mainCanvasRef := strokeOn props p0 q (mainCanvasRef st);
         isDrawing := isDrawing st; image := image st;
         lastPoint := Some q |}).
    { subst st1. unfold draw. rewrite Hd, Hq, Hl. reflexivity. }
    destruct (getCoordinates_some_canvas _ _ _ _ _ Hq) as [c Hc].
    assert (Hs1 : strokes st1 =
      strokes st ++ [Stroke p0 q (brushColor props) (brushSize props)]).
    { rewrite E1. apply strokes_strokeOn with (c := c). exact Hc. }
    assert (Hall' : Forall2
      (fun i q => getCoordinates st1 (fst i) (snd i) true = Some q) rest qs).
    { clear - Hrest Ki Kc. induction Hrest as [| j r js rs Hj Hrs IHr];
        constructor; [| exact IHr].
      rewrite (getCoordinates_same st st1); assumption. }
    destruct (IH qs st1 q) as [H1 [H2 H3]];
      [rewrite E1; exact Hd | rewrite E1; reflexivity | exact Hall' |].
    fold (Conditions.drawAll props rest st1).
    cbv zeta in H1, H2, H3.
    split; [| split; [| exact H3]].
    + rewrite H1, Hs1, <- app_assoc. reflexivity.
    + rewrite H2. symmetry. f_equal. apply last_cons_default.
Qed.

Lemma moves_paint_a_polyline_witness :
  let st := startDrawing Sample.loaded Sample.box
              (OfMouse (Sample.mouse 400 400)) in
  let mapped (ev : PointerInput) :=
    match getCoordinates st Sample.box ev true with
    | Some q => q
    | None => App.origin
    end in
  let p0 := mapped (OfMouse (Sample.mouse 400 400)) in
  let inputs := [(Sample.box, OfMouse (Sample.mouse 400 300));
                 (Sample.box, OfMouse (Sample.mouse 500 300))] in
  let ps := [mapped (OfMouse (Sample.mouse 400 300));
             mapped (OfMouse (Sample.mouse 500 300))] in
  let st' := Conditions.drawAll Sample.brush inputs st in
  strokes st' = strokes st ++ Conditions.polyline Sample.brush p0 ps
  /\ lastPoint st' = Some (last ps p0)
  /\ isDrawing st' = true.
Proof.
  cbv zeta.
  apply (moves_paint_a_polyline Sample.brush
           [(Sample.box, OfMouse (Sample.mouse 400 300));
            (Sample.box, OfMouse (Sample.mouse 500 300))]).
  - reflexivity.
  - reflexivity.
  - repeat constructor.
Defined.

Lemma sinceClear_app (w h : number) (l1 l2 : list DrawOp) :
  forall acc,
    Raster.sinceClear w h acc (l1 ++ l2)
    = Raster.sinceClear w h (Raster.sinceClear w h acc l1) l2.
Proof.
  induction l1 as [| op l1 IH]; intros acc; [reflexivity|].
  cbn [List.app Raster.sinceClear].
  destruct (Raster.clearsAll w h op); apply IH.
Qed.

Lemma strictEq_refl (a : number) : a <> NaN -> NumOps.strictEq a a = true.
Proof.
  destruct a as [q | | |]; intros H; try reflexivity.
  - cbn [NumOps.strictEq]. apply Qeq_bool_iff. reflexivity.
  - contradiction H. reflexivity.
Qed.

(** While the same photo stays bound, the canvas keeps the size the
    load gave it. *)
Lemma canvas_size_step (props : Props) (img : Image.t) (a : Editor.Action)
    (s : Editor.State) :
  Editor.isLoad a = false ->
  (image (Editor.canvas s) = Some img
   /\ exists cv, mainCanvasRef (Editor.canvas s) = Some cv
                 /\ width cv = Image.naturalWidth img
                 /\ height cv = Image.naturalHeight img) ->
  image (Editor.canvas (Editor.step props a s)) = Some img
  /\ exists cv, mainCanvasRef (Editor.canvas (Editor.step props a s)) = Some cv
                /\ width cv = Image.naturalWidth img
                /\ height cv = Image.naturalHeight img.
Proof.
  intros Ha [Hi [cv [Hc [Hw Hh]]]]. set (c := Editor.canvas s) in *.
  assert (Hsame : image c = Some img
    /\ exists cv', mainCanvasRef c = Some cv'
                   /\ width cv' = Image.naturalWidth img
                   /\ height cv' = Image.naturalHeight img)
    by (split; [exact Hi | exists cv; repeat split; assumption]).
  destruct a as [env ev | img' |]; [| discriminate Ha |].
  - cbn [Editor.step Editor.dispatch Editor.canvas]. fold c.
    assert (Hdraw : forall rect e,
      image (draw props c rect e) = Some img
      /\ exists cv', mainCanvasRef (draw props c rect e) = Some cv'
                     /\ width cv' = Image.naturalWidth img
                     /\ height cv' = Image.naturalHeight img).
    { intros rect e. unfold draw. destruct (negb (isDrawing c)); [exact Hsame|].
      destruct (getCoordinates c rect e true); [| exact Hsame].
      destruct (lastPoint c); [| exact Hsame].
      cbn [image mainCanvasRef]. rewrite Hc. cbn [strokeOn].
      split; [exact Hi|]. eexists. split; [reflexivity|].
      cbn [width height]. split; assumption. }
    assert (Hstart : forall rect e,
      image (startDrawing c rect e) = Some img
      /\ exists cv', mainCanvasRef (startDrawing c rect e) = Some cv'
                     /\ width cv' = Image.naturalWidth img
                     /\ height cv' = Image.naturalHeight img).
    { intros rect e. unfold startDrawing.
      destruct (getCoordinates c rect e true); exact Hsame. }
    destruct ev; cbn [Editor.onCanvas];
      first [apply Hstart | apply Hdraw | exact Hsame].
  - cbn [Editor.step Editor.canvas]. fold c. unfold resetCanvas.
    rewrite Hc, Hi. cbn [image mainCanvasRef].
    split; [reflexivity|]. eexists. split; [reflexivity|].
    cbn [width height]. split; assumption.
Qed.

(** X10.  Clearing gives the photo back.  With a photo of finite size
    bound, after any gestures and clear requests, one more clear request
    leaves on the main canvas exactly what the load left: the photo drawn
    at the origin and nothing else; every stroke is gone. *)
Theorem clear_restores_the_photo
    (props : Props) (img : Image.t) (a0 : App.State)
    (acts : list Editor.Action) :
  finite (Image.naturalWidth img) ->
  finite (Image.naturalHeight img) ->
  forallb (fun a => negb (Editor.isLoad a)) acts = true ->
  let start := {| Editor.app := a0; Editor.canvas := onload img mounted |} in
  let s := Editor.run props (acts ++ [Editor.Clear]) start in
  Raster.picture (Editor.canvas s) = [DrawImage img (Fin 0) (Fin 0)]
  /\ Raster.picture (Editor.canvas s) = Raster.picture (Editor.canvas start).
Proof.
  intros Hfw Hfh Hacts start s.
  assert (Hnw : Image.naturalWidth img <> NaN)
    by (destruct (Image.naturalWidth img); try contradiction; discriminate).
  assert (Hnh : Image.naturalHeight img <> NaN)
    by (destruct (Image.naturalHeight img); try contradiction; discriminate).
  assert (Hclr : Raster.clearsAll (Image.naturalWidth img)
                   (Image.naturalHeight img)
                   (ClearRect (Fin 0) (Fin 0) (Image.naturalWidth img)
                      (Image.naturalHeight img)) = true).
  { cbn [Raster.clearsAll]. rewrite !strictEq_refl by (assumption || discriminate). reflexivity. }
  assert (Hgen : forall l s0,
    forallb (fun a => negb (Editor.isLoad a)) l = true ->
    (image (Editor.canvas s0) = Some img
     /\ exists cv, mainCanvasRef (Editor.canvas s0) = Some cv
                   /\ width cv = Image.naturalWidth img
                   /\ height cv = Image.naturalHeight img) ->
    image (Editor.canvas (Editor.run props l s0)) = Some img
    /\ exists cv, mainCanvasRef (Editor.canvas (Editor.run props l s0)) = Some cv
                  /\ width cv = Image.naturalWidth img
                  /\ height cv = Image.naturalHeight img).
  { induction l as [| a rest IH]; intros s0 Hl Hinv; [exact Hinv|].
    cbn [forallb] in Hl. apply andb_true_iff in Hl. destruct Hl as [Ha Hr].
    cbn [Editor.run]. apply IH; [exact Hr|].
    apply canvas_size_step; [| exact Hinv].
    destruct (Editor.isLoad a); [discriminate Ha | reflexivity]. }
  assert (Hstart : Raster.picture (Editor.canvas start)
                   = [DrawImage img (Fin 0) (Fin 0)]).
  { subst start.
    cbn [Editor.canvas onload mounted mainCanvasRef Raster.picture
         width height bitmap Raster.sinceClear].
    rewrite Hclr. reflexivity. }
  assert (Hend : Raster.picture (Editor.canvas s)
                 = [DrawImage img (Fin 0) (Fin 0)]).
  { subst s.
    assert (Hrun : forall l1 l2 s0,
      Editor.run props (l1 ++ l2) s0
      = Editor.run props l2 (Editor.run props l1 s0)).
    { induction l1 as [| a l1 IH]; intros l2 s0; [reflexivity|].
      cbn [List.app Editor.run]. apply IH. }
    rewrite Hrun. cbn [Editor.run Editor.step Editor.canvas].
    destruct (Hgen acts start Hacts) as [Hi [cv [Hc [Hw Hh]]]].
    { subst start. cbn [Editor.canvas onload mounted image mainCanvasRef].
      split; [reflexivity|]. eexists. split; [reflexivity|].
      split; reflexivity. }
    unfold resetCanvas. rewrite Hc, Hi.
    cbn [Raster.picture mainCanvasRef width height bitmap].
    rewrite sinceClear_app. cbn [Raster.sinceClear].
    rewrite Hw, Hh, Hclr. reflexivity. }
  split; [exact Hend | rewrite Hend, Hstart; reflexivity].
Qed.

Lemma clear_restores_the_photo_witness :
  let start := {| Editor.app := App.init;
                  Editor.canvas := onload Sample.photo mounted |} in
  let s := Editor.run Sample.brush
             ([Editor.Input Sample.env (App.MouseDown (Sample.mouse 400 400));
               Editor.Input Sample.env (App.MouseMove (Sample.mouse 400 300))]
              ++ [Editor.Clear]) start in
  Raster.picture (Editor.canvas s) = [DrawImage Sample.photo (Fin 0) (Fin 0)]
  /\ Raster.picture (Editor.canvas s) = Raster.picture (Editor.canvas start).
Proof.
  exact (clear_restores_the_photo Sample.brush Sample.photo App.init
           [Editor.Input Sample.env (App.MouseDown (Sample.mouse 400 400));
            Editor.Input Sample.env (App.MouseMove (Sample.mouse 400 300))]
           I I eq_refl).
Defined.

Lemma stopDrawing_idle (c : State) :
  isDrawing c = false -> lastPoint c = None -> stopDrawing c = c.
Proof.
  destruct c as [cv d i l]. cbn [isDrawing lastPoint stopDrawing
                                  mainCanvasRef image].
  intros -> ->. reflexivity.
Qed.

(** X11.  Nothing is painted without a press that lands on the photo.
    From a state in which no stroke is in progress, a sequence of moves,
    releases, leaves, wheel and button events and of presses that map
    outside the rendered image (in a letterbox margin, say) leaves the
    canvas editor exactly as it was: no stroke starts and the main canvas
    is untouched. *)
Theorem no_paint_without_a_press_on_the_photo
    (props : Props) (acts : list Editor.Action) (s : Editor.State) :
  isDrawing (Editor.canvas s) = false ->
  lastPoint (Editor.canvas s) = None ->
  Forall (fun a => Conditions.noPress a = true
                   \/ Conditions.pressMisses (Editor.canvas s) a) acts ->
  Editor.canvas (Editor.run props acts s) = Editor.canvas s.
Proof.
  intros Hd Hl Hacts.
  assert (Hgen : forall s0,
    Editor.canvas s0 = Editor.canvas s ->
    Editor.canvas (Editor.run props acts s0) = Editor.canvas s).
  { induction Hacts as [| a rest Ha Hrest IH]; intros s0 E; [exact E|].
    cbn [Editor.run]. apply IH.
    destruct a as [env ev | img |].
    - cbn [Editor.step Editor.dispatch Editor.canvas]. rewrite E.
      destruct Ha as [Ha | Ha].
      + destruct ev; try discriminate Ha; cbn [Editor.onCanvas];
          try reflexivity;
          try (apply stopDrawing_idle; assumption);
          unfold draw; rewrite Hd; reflexivity.
      + destruct ev; try contradiction Ha; cbn [Editor.onCanvas];
          cbn [Conditions.pressMisses] in Ha;
          unfold startDrawing; rewrite Ha; reflexivity.
    - destruct Ha as [Ha | Ha]; [discriminate Ha | contradiction Ha].
    - destruct Ha as [Ha | Ha]; [discriminate Ha | contradiction Ha]. }
  apply Hgen. reflexivity.
Qed.

Lemma no_paint_without_a_press_on_the_photo_witness :
  let s := {| Editor.app := App.init; Editor.canvas := Sample.loaded |} in
  Editor.canvas
    (Editor.run Sample.brush
       [Editor.Input Sample.env (App.MouseMove (Sample.mouse 400 300));
        Editor.Input Sample.env (App.MouseDown (Sample.mouse 400 100));
        Editor.Input Sample.env (App.MouseMove (Sample.mouse 400 300));
        Editor.Input Sample.env App.MouseUp] s)
  = Editor.canvas s.
Proof.
  apply (no_paint_without_a_press_on_the_photo Sample.brush _
           {| Editor.app := App.init; Editor.canvas := Sample.loaded |}).
  - reflexivity.
  - reflexivity.
  - repeat constructor; first [left; reflexivity | right; reflexivity].
Defined.

End CanvasMore.

(* ================================================================= *)
(** ** The closest of the five aspect ratios *)

Section AspectRatio.

Import Aspect.

Lemma Qabs_lt_iff (x y : Q) :
  Qabs x < Qabs y <-> (x < y /\ - y < x) \/ (x < - y /\ y < x).
Proof.
  apply Qabs_case; intros Hx; apply Qabs_case; intros Hy; lra.
Qed.

Lemma closer_fin (rho a b : Q) (va vb : Ratio) :
  closer (Fin rho) {| r := Fin a; val := va |} {| r := Fin b; val := vb |}
  = if Qlt_le_dec (Qabs (b - rho)) (Qabs (a - rho))
    then {| r := Fin b; val := vb |} else {| r := Fin a; val := va |}.
Proof.
  unfold closer. cbn [r sub add neg NumOps.Math_abs].
  destruct (Qlt_le_dec (Qabs (b - rho)) (Qabs (a - rho))) as [H | H].
  - apply lt_fin_true in H. unfold Qminus in H. rewrite H. reflexivity.
  - apply lt_fin_false in H. unfold Qminus in H. rewrite H. reflexivity.
Qed.

Ltac decide_closer :=
  rewrite closer_fin;
  match goal with
  | |- context [Qlt_le_dec ?x ?y] =>
      let Hc := fresh "Hc" in
      destruct (Qlt_le_dec x y) as [Hc | Hc];
      [apply Qabs_lt_iff in Hc
      | apply Qle_not_lt in Hc; rewrite Qabs_lt_iff in Hc];
      try (exfalso; lra)
  end.



(** X13. When width/height is not a finite number (a zero height, which
    gives an infinity or, for 0/0, NaN; or an argument that is itself NaN
    or infinite with such a quotient), no comparison of the reduce
    succeeds and [getClosestAspectRatio] answers with the first target,
    1:1. *)
Theorem getClosestAspectRatio_not_finite (width height : number) :
  ~ finite (width / height)%js ->
  getClosestAspectRatio width height = R1_1.
Proof.
  intros Hn. unfold getClosestAspectRatio.
  destruct (width / height)%js as [q | | |] eqn:E.
  - exfalso. apply Hn. exact I.
  - reflexivity.
  - reflexivity.
  - reflexivity.
Qed.

Lemma getClosestAspectRatio_not_finite_witness :
  getClosestAspectRatio (Fin 1000) (Fin 0) = R1_1
  /\ getClosestAspectRatio (Fin 0) (Fin 0) = R1_1.
Proof.
  split.
  - apply (getClosestAspectRatio_not_finite (Fin 1000) (Fin 0)).
    intros H. exact H.
  - apply (getClosestAspectRatio_not_finite (Fin 0) (Fin 0)).
    intros H. exact H.
Defined.

End AspectRatio.

(* ================================================================= *)
(** ** Data URLs: what is built is what is read back *)

Section DataUrls.

Import DataUrl.
Local Open Scope string_scope.

Lemma split_without (c : ascii) (s : string) :
  Str.includes c s = false -> Str.split c s = [s].
Proof.
  induction s as [| a s IH]; cbn [Str.split Str.includes]; [reflexivity|].
  intros H. apply orb_false_iff in H. destruct H as [H1 H2].
  rewrite H1, (IH H2). reflexivity.
Qed.

Lemma split_at_first (c : ascii) (h d : string) :
  Str.includes c h = false ->
  Str.split c (h ++ String c d) = h :: Str.split c d.
Proof.
  induction h as [| a h IH]; cbn [Str.split Str.includes append].
  - intros _. rewrite Ascii.eqb_refl. reflexivity.
  - intros H. apply orb_false_iff in H. destruct H as [H1 H2].
    rewrite H1, (IH H2). reflexivity.
Qed.

Lemma lazyUpToSemicolon_plain (m rest : string) :
  Str.includes ";"%char m = false ->
  Str.includes "010"%char m = false ->
  Str.includes "013"%char m = false ->
  lazyUpToSemicolon (m ++ String ";"%char rest) = Some m.
Proof.
  induction m as [| a m IH]; cbn [lazyUpToSemicolon Str.includes append].
  - intros _ _ _. reflexivity.
  - intros H1 H2 H3.
    apply orb_false_iff in H1, H2, H3.
    destruct H1 as [H1 H1'], H2 as [H2 H2'], H3 as [H3 H3'].
    unfold Str.isLineTerminator. rewrite H1, H2, H3. cbn [orb].
    rewrite (IH H1' H2' H3'). reflexivity.
Qed.

Lemma plain_parts (s : string) :
  plain s = true ->
  Str.includes ","%char s = false /\ Str.includes ";"%char s = false
  /\ Str.includes "010"%char s = false /\ Str.includes "013"%char s = false.
Proof.
  unfold plain. intros H.
  repeat (apply andb_true_iff in H; destruct H as [H ?]).
  repeat split; apply negb_true_iff; assumption.
Qed.

Lemma includes_app (c : ascii) (a b : string) :
  Str.includes c (a ++ b) = Str.includes c a || Str.includes c b.
Proof.
  induction a as [| x a IH]; cbn [append Str.includes]; [reflexivity|].
  rewrite IH, orb_assoc. reflexivity.
Qed.

Lemma append_assoc3 (a b c : string) : (a ++ b) ++ c = a ++ (b ++ c).
Proof.
  induction a as [| x a IH]; cbn [append]; [reflexivity|].
  rewrite IH. reflexivity.
Qed.

Lemma build_split (mime data : string) :
  build mime data = ("data:" ++ mime ++ ";base64") ++ String ","%char data.
Proof.
  unfold build. rewrite !append_assoc3. reflexivity.
Qed.

Lemma header_without_comma (mime : string) :
  Str.includes ","%char mime = false ->
  Str.includes ","%char ("data:" ++ mime ++ ";base64") = false.
Proof.
  intros H. rewrite !includes_app, H. reflexivity.
Qed.

Lemma matchMime_header (mime : string) :
  Str.includes ";"%char mime = false ->
  Str.includes "010"%char mime = false ->
  Str.includes "013"%char mime = false ->
  matchMime ("data:" ++ mime ++ ";base64") = Some mime.
Proof.
  intros H1 H2 H3.
  change ("data:" ++ mime ++ ";base64")
    with (String "d" (String "a" (String "t" (String "a" (String ":"
            (mime ++ String ";"%char "base64")))))).
  cbn [matchMime Ascii.eqb Bool.eqb].
  rewrite lazyUpToSemicolon_plain by assumption. reflexivity.
Qed.

Lemma mimeString_build (mime data : string) :
  plain mime = true ->
  Str.includes ":"%char mime = false ->
  mimeString (build mime data) = Some mime.
Proof.
  intros Hp Hcol.
  destruct (plain_parts mime Hp) as [Hc [Hs [Hl Hr]]].
  unfold mimeString. rewrite build_split.
  rewrite split_at_first by (apply header_without_comma; exact Hc).
  change ("data:" ++ mime ++ ";base64")
    with ("data" ++ String ":"%char (mime ++ ";base64")).
  rewrite split_at_first by reflexivity.
  change (mime ++ ";base64") with (mime ++ String ";"%char "base64").
  assert (E : Str.split ":"%char (mime ++ String ";"%char "base64")
              = [mime ++ String ";"%char "base64"]).
  { apply split_without. rewrite includes_app, Hcol. reflexivity. }
  rewrite E.
  rewrite split_at_first by exact Hs. reflexivity.
Qed.

Lemma payload_build (mime data : string) :
  Str.includes ","%char mime = false ->
  Str.includes ","%char data = false ->
  payload (build mime data) = data.
Proof.
  intros Hc Hd. unfold payload. rewrite build_split.
  rewrite split_at_first by (apply header_without_comma; exact Hc).
  rewrite split_without by exact Hd. reflexivity.
Qed.

(** X14.  A result is read back as it was built.  [handleGenerate] shows
    the image of a response as [`data:${mimeType};base64,${data}`] and, on
    the next request, takes that URL apart again to send the image as the
    base: when the MIME type is not empty and has no comma, semicolon or
    line break, and the data is not empty and has no comma, the part sent
    has exactly the [data] and [mimeType] of the response. *)
Theorem result_url_round_trip (mime data : string) :
  plain mime = true ->
  Str.isEmpty mime = false ->
  Str.includes ","%char data = false ->
  Str.isEmpty data = false ->
  partOfResult (build mime data)
  = inr {| base64Data := data; mimeType := mime |}.
Proof.
  intros Hp Hm Hd Hde.
  destruct (plain_parts mime Hp) as [Hc [Hs [Hl Hr]]].
  unfold partOfResult. rewrite build_split.
  rewrite split_at_first by (apply header_without_comma; exact Hc).
  rewrite split_without by exact Hd.
  rewrite Hde. unfold mimeOf.
  rewrite matchMime_header by assumption. rewrite Hm. reflexivity.
Qed.

Lemma result_url_round_trip_witness :
  partOfResult (build "image/png" "iVBORw0KGgo=")
  = inr {| base64Data := "iVBORw0KGgo="; mimeType := "image/png" |}.
Proof.
  apply (result_url_round_trip "image/png" "iVBORw0KGgo="); reflexivity.
Defined.



End DataUrls.

(* ================================================================= *)
(** ** The gallery *)

Section GalleryFacts.

Import Gallery.
Local Open Scope string_scope.

Lemma optEq_some (a b : string) : Str.optEq (Some a) (Some b) = true <-> a = b.
Proof. cbn [Str.optEq]. apply String.eqb_eq. Qed.

Lemma in_ids_filter (i j : string) (l : list UploadedImage) :
  In i (map id l) -> i <> j ->
  In i (map id (filter (fun img => negb (String.eqb (id img) j)) l)).
Proof.
  intros Hin Hne. apply in_map_iff in Hin. destruct Hin as [img [E Hi]].
  apply in_map_iff. exists img. split; [exact E|].
  apply filter_In. split; [exact Hi|].
  apply negb_true_iff. apply String.eqb_neq. rewrite E. exact Hne.
Qed.

Lemma ids_save (i u : string) (l : list UploadedImage) :
  map id (map (fun img => if String.eqb (id img) i
                          then {| id := id img; file := file img;
                                  dataUrl := u |}
                          else img) l)
  = map id l.
Proof.
  rewrite map_map. apply map_ext. intros img.
  destruct (String.eqb (id img) i); reflexivity.
Qed.

Lemma selectionValid_step (atob : string -> option string) (ev : Event)
    (st : State) :
  selectionValid st -> allowed st ev -> selectionValid (step atob ev st).
Proof.
  unfold selectionValid. intros Hv Ha.
  destruct ev as [i | i | l | | i | i u | u n1 n2 | n1 n2 | cap news | r e];
    cbn [step].
  - unfold handleImageSelect.
    destruct (negb (Str.optEq (Some i) (selectedImageId st)));
      [cbn [selectedImageId uploadedImages]; exact Ha | exact Hv].
  - unfold handleImageDelete.
    destruct (Str.optEq (selectedImageId st) (Some i)) eqn:E;
      cbn [selectedImageId uploadedImages].
    + destruct (filter _ (uploadedImages st)) as [| img rest];
        [exact I | left; reflexivity].
    + destruct (selectedImageId st) as [j |]; [| exact I].
      apply in_ids_filter; [exact Hv|].
      intros ->. cbn [Str.optEq] in E. rewrite String.eqb_refl in E.
      discriminate E.
  - cbn [handleImageReorder selectedImageId uploadedImages].
    destruct (selectedImageId st) as [j |]; [| exact I].
    cbn [allowed] in Ha. apply Permutation_sym in Ha.
    apply (Permutation_in j (Permutation_map id Ha)). exact Hv.
  - exact Hv.
  - unfold handleOpenPhotoEditor. destruct (find _ _); exact Hv.
  - cbn [handleSavePhotoEditor selectedImageId uploadedImages].
    rewrite ids_save. exact Hv.
  - cbn [handleLayoutComplete selectedImageId uploadedImages id].
    rewrite map_app. apply in_or_app. right. left. reflexivity.
  - unfold handleEditResult.
    destruct (imageUrl (apiResult st)) as [url |]; [| exact Hv].
    destruct (Str.isEmpty url); [exact Hv|].
    destruct (resultImage atob url n1 n2) as [img |];
      cbn [selectedImageId uploadedImages]; [| exact Hv].
    rewrite map_app. apply in_or_app. right. left. reflexivity.
  - cbn [filesLoaded selectedImageId uploadedImages].
    assert (Hkeep : match selectedImageId st with
                    | Some i => In i (map id (uploadedImages st ++ news))
                    | None => True
                    end).
    { destruct (selectedImageId st) as [j |]; [| exact I].
      rewrite map_app. apply in_or_app. left. exact Hv. }
    destruct news as [| img rest]; [exact Hkeep|].
    destruct (negb (Str.truthy cap)); [| exact Hkeep].
    rewrite map_app. apply in_or_app. right. left. reflexivity.
  - exact Hv.
Qed.

Lemma selectionValid_run (atob : string -> option string)
    (evs : list Event) :
  forall st, selectionValid st -> allowedRun atob evs st ->
             selectionValid (run atob evs st).
Proof.
  induction evs as [| ev rest IH]; intros st Hv Ha; [exact Hv|].
  cbn [run]. destruct Ha as [Ha Hrest].
  apply IH; [apply selectionValid_step; assumption | exact Hrest].
Qed.

Lemma find_hasId (i : string) (l : list UploadedImage) :
  In i (map id l) ->
  exists img, find (hasId (Some i)) l = Some img /\ id img = i /\ In img l.
Proof.
  induction l as [| x l IH]; cbn [map In find]; [contradiction|].
  intros H. unfold hasId at 1. cbn [Str.optEq].
  destruct (String.eqb (id x) i) eqn:E.
  - apply String.eqb_eq in E. exists x. repeat split; [exact E | left; reflexivity].
  - destruct H as [H | H]; [apply String.eqb_neq in E; contradiction|].
    destruct (IH H) as [img [H1 [H2 H3]]].
    exists img. repeat split; [exact H1 | exact H2 | right; exact H3].
Qed.

(** X16.  The selection never dangles.  From the first render, along every
    sequence of gallery events (select, delete, reorder, clear, open and
    save the photo editor, a finished layout, a result taken over for
    editing, finished uploads, outcomes of requests), as long as the
    thumbnail strip selects only images it shows and reorders by
    permutation: whenever [selectedImageId] is not null, [selectedImage]
    is an uploaded image with that id; so the upload prompt is shown
    exactly when nothing is selected. *)
Theorem selection_never_dangles (atob : string -> option string)
    (evs : list Event) :
  allowedRun atob evs init ->
  let st := run atob evs init in
  (forall i, selectedImageId st = Some i ->
     exists img, selectedImage st = Some img /\ id img = i
                 /\ In img (uploadedImages st))
  /\ (selectedImage st = None <-> selectedImageId st = None).
Proof.
  intros Ha st.
  assert (Hv : selectionValid st).
  { apply selectionValid_run; [exact I | exact Ha]. }
  clearbody st. unfold selectionValid in Hv. unfold selectedImage.
  split.
  - intros i E. rewrite E in *. apply find_hasId. exact Hv.
  - destruct (selectedImageId st) as [i |].
    + destruct (find_hasId i _ Hv) as [img [H1 _]]. rewrite H1.
      split; discriminate.
    + split; [reflexivity | intros _].
      induction (uploadedImages st) as [| x l IH]; [reflexivity|].
      cbn [find hasId Str.optEq]. exact IH.
Qed.

Lemma selection_never_dangles_witness :
  let a := {| id := "a.png-1"; file := {| name := "a.png"; type := "image/png" |};
              dataUrl := "data:image/png;base64,AAAA" |} in
  let b := {| id := "b.jpg-2"; file := {| name := "b.jpg"; type := "image/jpeg" |};
              dataUrl := "data:image/jpeg;base64,BBBB" |} in
  let st := run (fun s => Some s)
              [FilesLoaded None [a; b]; Select "b.jpg-2"; Reorder [b; a];
               Delete "b.jpg-2";
               LayoutComplete "data:image/png;base64,CCCC" "3" "4";
               Delete "4"; Delete "a.png-1"]
              init in
  (forall i, selectedImageId st = Some i ->
     exists img, selectedImage st = Some img /\ id img = i
                 /\ In img (uploadedImages st))
  /\ (selectedImage st = None <-> selectedImageId st = None).
Proof.
  intros a b.
  apply (selection_never_dangles (fun s => Some s)).
  cbn. repeat split; [right; left; reflexivity | apply perm_swap].
Defined.



End GalleryFacts.
(* ================================================================= *)
(** ** The images of a request *)

Section Referenced.

Import References.

Lemma add_spec (s : list nat) (i j : nat) :
  In j (add s i) <-> In j s \/ j = i.
Proof.
  unfold add. destruct (existsb (Nat.eqb i) s) eqn:E.
  - split; [intros H; left; exact H|].
    intros [H | ->]; [exact H|].
    apply existsb_exists in E. destruct E as [x [Hx Ex]].
    apply Nat.eqb_eq in Ex. subst x. exact Hx.
  - rewrite in_app_iff. cbn [In]. split.
    + intros [H | [H | []]]; [left; exact H | right; symmetry; exact H].
    + intros [H | ->]; [left; exact H | right; left; reflexivity].
Qed.

Lemma add_NoDup (s : list nat) (i : nat) : NoDup s -> NoDup (add s i).
Proof.
  intros Hs. unfold add. destruct (existsb (Nat.eqb i) s) eqn:E; [exact Hs|].
  apply NoDup_app; [exact Hs | repeat constructor; intros [] |].
  intros x Hx [E' | []]. subst x.
  assert (Hex : existsb (Nat.eqb i) s = true).
  { apply existsb_exists. exists i. split; [exact Hx | apply Nat.eqb_refl]. }
  rewrite Hex in E. discriminate E.
Qed.

Lemma collect_fold (n : nat) (ms : list nat) :
  forall s,
    NoDup s -> Forall (fun i => (i < n)%nat) s ->
    let s' := fold_left
                (fun s imageNumber =>
                   if (0 <? imageNumber)%nat && (imageNumber <=? n)%nat
                   then add s (imageNumber - 1)%nat else s) ms s in
    NoDup s' /\ Forall (fun i => (i < n)%nat) s'
    /\ (forall i, In i s -> In i s')
    /\ (forall k, In k ms -> (0 < k <= n)%nat -> In (k - 1)%nat s').
Proof.
  induction ms as [| m ms IH]; intros s Hnd Hlt; cbn [fold_left].
  - split; [exact Hnd|]. split; [exact Hlt|].
    split; [intros i Hi; exact Hi | intros k []].
  - set (s1 := if (0 <? m)%nat && (m <=? n)%nat then add s (m - 1)%nat else s).
    assert (H1 : NoDup s1 /\ Forall (fun i => (i < n)%nat) s1
                 /\ (forall i, In i s -> In i s1)
                 /\ ((0 < m <= n)%nat -> In (m - 1)%nat s1)).
    { subst s1. destruct ((0 <? m)%nat && (m <=? n)%nat) eqn:E.
      - apply andb_true_iff in E. destruct E as [E1 E2].
        apply Nat.ltb_lt in E1. apply Nat.leb_le in E2.
        split; [apply add_NoDup; exact Hnd|]. split.
        + apply Forall_forall. intros x Hx. apply add_spec in Hx.
          destruct Hx as [Hx | ->]; [| lia].
          rewrite Forall_forall in Hlt. apply Hlt. exact Hx.
        + split; [intros i Hi; apply add_spec; left; exact Hi|].
          intros _. apply add_spec. right. reflexivity.
      - repeat split; try assumption; [intros i Hi; exact Hi|].
        intros [Ha Hb]. apply andb_false_iff in E.
        destruct E as [E | E];
          [apply Nat.ltb_ge in E | apply Nat.leb_gt in E]; lia. }
    destruct H1 as [Hnd1 [Hlt1 [Hin1 Hm]]].
    destruct (IH s1 Hnd1 Hlt1) as [A [B [C D]]].
    split; [exact A|]. split; [exact B|]. split.
    + intros i Hi. apply C. apply Hin1. exact Hi.
    + intros k [-> | Hk] Hr; [apply C; apply Hm; exact Hr | apply D; assumption].
Qed.

Lemma collect_spec (ms : list nat) (n : nat) :
  NoDup (collect ms n) /\ Forall (fun i => (i < n)%nat) (collect ms n)
  /\ (forall k, In k ms -> (0 < k <= n)%nat -> In (k - 1)%nat (collect ms n)).
Proof.
  destruct (collect_fold n ms [] (NoDup_nil _) (Forall_nil _)) as [A [B [_ D]]].
  repeat split; assumption.
Qed.

Lemma push_fold (imgs : list Gallery.UploadedImage) (sel : option nat)
    (idxs : list nat) :
  Forall (fun i => (i < List.length imgs)%nat) idxs ->
  forall acc,
    exists sent,
      fold_left (pushReferenced imgs sel) idxs acc = acc ++ sent
      /\ Forall2 (fun i p => exists img, nth_error imgs i = Some img
                                         /\ p = partOf img)
                 (filter (fun i => differs i sel) idxs) sent.
Proof.
  induction 1 as [| i idxs Hi Hrest IH]; intros acc; cbn [fold_left filter].
  - exists []. rewrite app_nil_r. split; [reflexivity | constructor].
  - unfold pushReferenced at 2.
    destruct (differs i sel) eqn:E.
    + destruct (nth_error imgs i) as [img |] eqn:En.
      * destruct (IH (acc ++ [partOf img])) as [sent [H1 H2]].
        exists (partOf img :: sent). split.
        -- rewrite H1, <- app_assoc. reflexivity.
        -- constructor; [exists img; split; [exact En | reflexivity] | exact H2].
      * apply nth_error_None in En. lia.
    + apply IH.
Qed.

Lemma findIndex_lt (sel : option string) (l : list Gallery.UploadedImage) :
  forall s, findIndex sel l = Some s -> (s < List.length l)%nat.
Proof.
  induction l as [| img l IH]; cbn [findIndex List.length]; [discriminate|].
  intros s. destruct (Gallery.hasId sel img).
  - intros E. injection E as <-. lia.
  - destruct (findIndex sel l) as [s0 |]; cbn [option_map]; [| discriminate].
    intros E. injection E as <-. specialize (IH s0 eq_refl). lia.
Qed.

Lemma findIndex_find (sel : option string) (l : list Gallery.UploadedImage) :
  find (Gallery.hasId sel) l <> None -> findIndex sel l <> None.
Proof.
  induction l as [| img l IH]; cbn [find findIndex];
    [intros H; contradiction H; reflexivity|].
  destruct (Gallery.hasId sel img); [discriminate|].
  intros H. specialize (IH H).
  destruct (findIndex sel l); [discriminate | contradiction IH; reflexivity].
Qed.

(** X18.  Each image goes out once.  For an edit request with an image
    selected, whatever numbers the prompt mentions: the parts sent are
    the base image followed by one part for each uploaded image that the
    prompt mentions by a number from 1 to the number of images, in the
    order of first mention, without the image at the selected index and
    without repeats; so no request carries more parts than there are
    uploaded images.  (The test of [referencedImage] in the loop never
    fails.) *)
Theorem request_sends_each_image_once
    (base : Part) (imageNumbers : list nat) (st : Gallery.State) :
  Gallery.selectedImage st <> None ->
  let n := List.length (Gallery.uploadedImages st) in
  let selectedIndex :=
    findIndex (Gallery.selectedImageId st) (Gallery.uploadedImages st) in
  let sent := sentIndices imageNumbers st in
  let parts := imagesToSend base imageNumbers st in
  hd_error parts = Some base
  /\ Forall2 (fun i p => exists img,
                nth_error (Gallery.uploadedImages st) i = Some img
                /\ p = partOf img)
             sent (tl parts)
  /\ NoDup sent
  /\ Forall (fun i => (i < n)%nat /\ Some i <> selectedIndex) sent
  /\ (forall k, In k imageNumbers -> (0 < k <= n)%nat ->
                Some (k - 1)%nat <> selectedIndex -> In (k - 1)%nat sent)
  /\ (List.length parts <= n)%nat.
Proof.
  intros Hsel n selectedIndex sent parts.
  destruct (collect_spec imageNumbers n) as [Hnd [Hlt Hin]].
  destruct (push_fold (Gallery.uploadedImages st) selectedIndex
              (collect imageNumbers n) Hlt [base]) as [ps [Hfold Hps]].
  assert (Eparts : parts = base :: ps).
  { subst parts. unfold imagesToSend. cbv zeta. fold n. fold selectedIndex.
    rewrite Hfold. reflexivity. }
  assert (Hdiff : forall i, differs i selectedIndex = true
                            <-> Some i <> selectedIndex).
  { intros i. unfold differs. destruct selectedIndex as [s |].
    - rewrite negb_true_iff, Nat.eqb_neq. split; [congruence|].
      intros H E. apply H. rewrite E. reflexivity.
    - split; [discriminate | reflexivity]. }
  assert (Hsent : forall i, In i sent <->
                            In i (collect imageNumbers n)
                            /\ Some i <> selectedIndex).
  { intros i. subst sent. unfold sentIndices. cbv zeta.
    fold n. fold selectedIndex. rewrite filter_In, Hdiff. reflexivity. }
  assert (Hnds : NoDup sent).
  { subst sent. unfold sentIndices. cbv zeta. fold n.
    apply NoDup_filter. exact Hnd. }
  rewrite Eparts. cbn [hd_error tl List.length].
  split; [reflexivity|]. split; [exact Hps|]. split; [exact Hnds|].
  split; [| split].
  - apply Forall_forall. intros i Hi. apply Hsent in Hi.
    destruct Hi as [Hi Hne]. rewrite Forall_forall in Hlt.
    split; [apply Hlt; exact Hi | exact Hne].
  - intros k Hk Hr Hne. apply Hsent. split; [apply Hin; assumption | exact Hne].
  - assert (Hl : List.length ps = List.length sent)
      by (symmetry; exact (Forall2_length Hps)).
    assert (Hs : exists s, selectedIndex = Some s /\ (s < n)%nat).
    { subst selectedIndex.
      destruct (findIndex (Gallery.selectedImageId st)
                  (Gallery.uploadedImages st)) as [s |] eqn:E.
      - exists s. split; [reflexivity|]. apply (findIndex_lt _ _ _ E).
      - exfalso. revert E. apply findIndex_find. exact Hsel. }
    destruct Hs as [s [Es Hs]].
    assert (Hincl : incl (s :: sent) (seq 0 n)).
    { intros i [<- | Hi]; apply in_seq; [lia|].
      apply Hsent in Hi. destruct Hi as [Hi _].
      rewrite Forall_forall in Hlt. specialize (Hlt i Hi). lia. }
    assert (Hnd' : NoDup (s :: sent)).
    { constructor; [| exact Hnds].
      intros Hi. apply Hsent in Hi. destruct Hi as [_ Hne].
      apply Hne. symmetry. exact Es. }
    pose proof (NoDup_incl_length Hnd' Hincl) as Hlen.
    rewrite length_seq in Hlen. cbn [List.length] in Hlen. lia.
Qed.

Lemma request_sends_each_image_once_witness :
  let img (i t u : string) :=
    {| Gallery.id := i; Gallery.file := {| Gallery.name := i; Gallery.type := t |};
       Gallery.dataUrl := u |} in
  let st :=
    Gallery.filesLoaded None
      [img "a" "image/png" "data:image/png;base64,AAAA";
       img "b" "image/jpeg" "data:image/jpeg;base64,BBBB";
       img "c" "image/webp" "data:image/webp;base64,CCCC"]%string
      Gallery.init in
  let base := {| base64Data := Some "AAAA"%string;
                 mimeType := "image/png"%string |} in
  imagesToSend base [3; 1; 3; 7; 0; 2]%nat st
  = [base;
     {| base64Data := Some "CCCC"%string; mimeType := "image/webp"%string |};
     {| base64Data := Some "BBBB"%string; mimeType := "image/jpeg"%string |}]
  /\ (List.length (imagesToSend base [3; 1; 3; 7; 0; 2]%nat st) <= 3)%nat.
Proof.
  intros img st base. split; [reflexivity|].
  apply (request_sends_each_image_once base [3; 1; 3; 7; 0; 2]%nat st).
  discriminate.
Defined.

End Referenced.

(* ================================================================= *)
(** ** The result panel *)

Section Panel.

Import ResultDisplay.

(** X19.  The result panel always shows something, and never two things
    that contradict each other: for all props, at least one of the
    spinner, the error box, the placeholder and the result block is
    rendered; the placeholder and the result block exclude each other and
    both exclude the spinner and the error box; a result block holds an
    image or a text; the spinner and the error box, however, are rendered
    together when an error is set while loading. *)
Theorem panel_blocks (p : Props) :
  let v := render p in
  (spinner v || errorBox v || placeholder v || result v = true)
  /\ (placeholder v && result v = false)
  /\ ((placeholder v || result v) && (spinner v || errorBox v) = false)
  /\ (result v = image v || textBox v)
  /\ (spinner v && errorBox v = loading p && Str.truthy (error p)).
Proof.
  unfold render. cbn [spinner errorBox placeholder result image textBox].
  destruct (loading p), (Str.truthy (error p)),
    (Str.truthy (Gallery.imageUrl (apiResult p))),
    (Str.truthy (Gallery.text (apiResult p))); repeat split.
Qed.

End Panel.
(* ================================================================= *)
(** ** The brush cursor *)

Section BrushCursor.

Import Preview.

Lemma preview_sinceClear_app (w h : number) (l1 l2 : list Op) :
  forall acc,
    sinceClear w h acc (l1 ++ l2) = sinceClear w h (sinceClear w h acc l1) l2.
Proof.
  induction l1 as [| op l1 IH]; intros acc; [reflexivity|].
  cbn [List.app sinceClear].
  destruct (clearsAll w h op); apply IH.
Qed.

Lemma picture_clear (p : Canvas) :
  width p <> NaN -> height p <> NaN -> picture (Some (clear p)) = [].
Proof.
  intros Hw Hh. cbn [picture clear width height bitmap].
  rewrite preview_sinceClear_app. cbn [sinceClear clearsAll].
  rewrite !strictEq_refl by (assumption || discriminate). reflexivity.
Qed.

Lemma picture_circle (p : Canvas) (op : Op) :
  width p <> NaN -> height p <> NaN -> clearsAll (width p) (height p) op = false ->
  picture (Some {| width := width (clear p); height := height (clear p);
                   bitmap := bitmap (clear p) ++ [op] |})
  = [op].
Proof.
  intros Hw Hh Hop. pose proof (picture_clear p Hw Hh) as Hc.
  cbn [picture width height bitmap clear] in *.
  rewrite preview_sinceClear_app, Hc. cbn [sinceClear]. rewrite Hop.
  reflexivity.
Qed.

(** The cursor [drawPreview] leaves for a mouse event. *)
Lemma picture_drawPreview (props : CanvasEditor.Props)
    (c : CanvasEditor.State) (rect : DOMRect.t) (e : MouseEvent.t)
    (p : Canvas) :
  width p <> NaN -> height p <> NaN ->
  picture (drawPreview props c rect e (Some p))
  = match CanvasEditor.getCoordinates c rect (OfMouse e) false with
    | Some coords =>
        let radius := (CanvasEditor.brushSize props / Fin 2)%js in
        if (radius <? Fin 0)%js then []
        else [Circle (Point.x coords) (Point.y coords) radius
                (CanvasEditor.brushColor props ++ "80")%string
                (CanvasEditor.brushColor props) (Fin 2)]
    | None => []
    end.
Proof.
  intros Hw Hh. unfold drawPreview.
  destruct (CanvasEditor.getCoordinates c rect (OfMouse e) false) as [pt |];
    [| apply picture_clear; assumption].
  cbv zeta.
  destruct (CanvasEditor.brushSize props / Fin 2 <? Fin 0)%js;
    [apply picture_clear; assumption|].
  apply picture_circle; [assumption | assumption | reflexivity].
Qed.

Lemma tidy_step (props : CanvasEditor.Props) (a : Editor.Action)
    (c : CanvasEditor.State) (pv : option Canvas) :
  finiteLoad a -> tidy pv -> tidy (step props a c pv).
Proof.
  intros Hf [p [-> [Hw [Hh Hlen]]]].
  destruct a as [env ev | img |]; cbn [step].
  - destruct ev; try (exists p; repeat split; assumption).
    + unfold tidy. rewrite picture_drawPreview by assumption.
      unfold drawPreview.
      destruct (CanvasEditor.getCoordinates c (Editor.canvasRect env)
                  (OfMouse e) false) as [pt |]; cbv zeta.
      * destruct (CanvasEditor.brushSize props / Fin 2 <? Fin 0)%js;
          eexists; (split; [reflexivity|]);
          cbn [width height clear List.length]; repeat split;
          try assumption; lia.
      * eexists; (split; [reflexivity|]);
          cbn [width height clear List.length]; repeat split;
          try assumption; lia.
    + exists (clear p). split; [reflexivity|].
      cbn [width height clear]. split; [exact Hw|]. split; [exact Hh|].
      change (Some (clear p)) with (clearPreview (Some p)).
      cbn [clearPreview]. rewrite picture_clear by assumption.
      cbn [List.length]. lia.
  - unfold onload. destruct (CanvasEditor.mainCanvasRef c).
    + cbn [finiteLoad] in Hf. destruct Hf as [Hfw Hfh].
      eexists. split; [reflexivity|]. cbn [width height picture bitmap sinceClear].
      split; [destruct (Image.naturalWidth img); try contradiction; discriminate|].
      split; [destruct (Image.naturalHeight img); try contradiction; discriminate|].
      cbn [List.length]. lia.
    + exists p. repeat split; assumption.
  - exists p. repeat split; assumption.
Qed.

Lemma tidy_run (props : CanvasEditor.Props) (acts : list Editor.Action) :
  forall s pv,
    Forall finiteLoad acts -> tidy pv -> tidy (run props acts s pv).
Proof.
  induction acts as [| a rest IH]; intros s pv Hf Ht; [exact Ht|].
  cbn [run]. inversion Hf as [| ? ? Ha Hrest]; subst.
  apply IH; [exact Hrest|]. apply tidy_step; assumption.
Qed.

Lemma preview_run_app (props : CanvasEditor.Props)
    (l1 l2 : list Editor.Action) :
  forall s pv,
    run props (l1 ++ l2) s pv
    = run props l2 (Editor.run props l1 s) (run props l1 s pv).
Proof.
  induction l1 as [| a l1 IH]; intros s pv; [reflexivity|].
  cbn [List.app run Editor.run]. apply IH.
Qed.

(** X20.  One cursor at most.  From the first render, after any actions
    of the editor (the photos that load being of finite size), the
    preview canvas shows nothing or one brush circle, never a trail.
    After a mouse move it shows exactly the circle at the point the
    pointer maps to without clamping, with radius [brushSize / 2] (and
    nothing when no photo has loaded or the radius is negative); after a
    mouse leave it shows nothing.  Touch events never repaint it. *)
Theorem preview_shows_one_cursor
    (props : CanvasEditor.Props) (acts : list Editor.Action)
    (a : Editor.Action) :
  Forall finiteLoad (acts ++ [a]) ->
  let before := Editor.run props acts Editor.init in
  let pv0 := run props acts Editor.init mounted in
  let pv := run props (acts ++ [a]) Editor.init mounted in
  (List.length (picture pv) <= 1)%nat
  /\ (forall env e, a = Editor.Input env (App.MouseMove e) ->
        picture pv
        = match CanvasEditor.getCoordinates (Editor.canvas before)
                  (Editor.canvasRect env) (OfMouse e) false with
          | Some coords =>
              let radius := (CanvasEditor.brushSize props / Fin 2)%js in
              if (radius <? Fin 0)%js then []
              else [Circle (Point.x coords) (Point.y coords) radius
                      (CanvasEditor.brushColor props ++ "80")%string
                      (CanvasEditor.brushColor props) (Fin 2)]
          | None => []
          end)
  /\ (forall env, a = Editor.Input env App.MouseLeave -> picture pv = [])
  /\ (forall env e, a = Editor.Input env (App.TouchStart e)
                    \/ a = Editor.Input env (App.TouchMove e)
                    \/ a = Editor.Input env (App.TouchEnd e) ->
        pv = pv0).
Proof.
  intros Hf before pv0 pv.
  assert (Hmounted : tidy mounted).
  { exists newCanvas. split; [reflexivity|].
    cbn [newCanvas width height picture mounted bitmap sinceClear List.length].
    repeat split; try discriminate. lia. }
  assert (Ht : tidy pv).
  { subst pv. apply tidy_run; assumption. }
  assert (Ht0 : tidy pv0).
  { subst pv0. apply tidy_run; [| exact Hmounted].
    apply Forall_app in Hf. exact (proj1 Hf). }
  assert (E : pv = step props a (Editor.canvas before) pv0).
  { subst pv pv0 before. rewrite preview_run_app. reflexivity. }
  destruct Ht as [p [Ep [_ [_ Hlen]]]].
  destruct Ht0 as [p0 [Ep0 [Hw0 [Hh0 _]]]].
  split; [exact Hlen|]. split; [| split].
  - intros env e ->. rewrite E, Ep0. cbn [step].
    apply picture_drawPreview; assumption.
  - intros env ->. rewrite E, Ep0. cbn [step clearPreview].
    apply picture_clear; assumption.
  - intros env e [-> | [-> | ->]]; rewrite E; reflexivity.
Qed.

Lemma preview_shows_one_cursor_witness :
  let acts := [Editor.Load Sample.photo;
               Editor.Input Sample.env (App.MouseMove (Sample.mouse 400 300));
               Editor.Input Sample.env (App.MouseMove (Sample.mouse 500 300))] in
  let a := Editor.Input Sample.env (App.MouseMove (Sample.mouse 900 300)) in
  (List.length
     (picture (run Sample.brush (acts ++ [a]) Editor.init mounted)) <= 1)%nat.
Proof.
  intros acts a.
  apply (preview_shows_one_cursor Sample.brush acts a).
  repeat constructor.
Defined.

End BrushCursor.
